(** * HarmonyParser (app/parsers/harmony.py): a shallow embedding

    The parser sits on top of the [openai_harmony] tokenizer and message
    decoder.  Those are foreign code: they appear here as an interface
    ([HarmonyEngine]) and every statement about the parser is proved for an
    arbitrary implementation of that interface.  A small reference engine
    ([Toy]) is used to run the parser on concrete inputs.

    Python strings are modelled by [string]; the only string operations the
    parser uses ([in], [find], slicing, [replace], [join]) are applied with
    ASCII needles, for which working on UTF-8 bytes and on code points
    agree. *)

From Stdlib Require Import Bool List ZArith Lia Ascii String.
Import ListNotations.
Open Scope string_scope.

(** ** Python string primitives *)

(** [sub in s] *)
Fixpoint str_in (sub s : string) : bool :=
  if prefix sub s then true
  else match s with
       | EmptyString => false
       | String _ s' => str_in sub s'
       end.

(** [s.find(sub)]: lowest index of an occurrence, [-1] when there is none. *)
Fixpoint find (sub s : string) : Z :=
  if prefix sub s then 0%Z
  else match s with
       | EmptyString => (-1)%Z
       | String _ s' =>
           let r := find sub s' in
           if (r <? 0)%Z then (-1)%Z else (r + 1)%Z
       end.

Fixpoint take (n : nat) (s : string) : string :=
  match n, s with
  | S k, String c s' => String c (take k s')
  | _, _ => EmptyString
  end.

(** [s[:k]]; a negative bound counts from the end, as in Python. *)
Definition slice_to (s : string) (k : Z) : string :=
  if (k <? 0)%Z
  then take (Z.to_nat (Z.max 0 (Z.of_nat (length s) + k))) s
  else take (Z.to_nat k) s.

(** [s.replace(old, new)] for a non-empty [old]: every non-overlapping
    occurrence, scanning from the left.  [skip] counts the characters of an
    occurrence already replaced that are still to be passed over. *)
Fixpoint replace_from (old new : string) (skip : nat) (s : string) : string :=
  match s with
  | EmptyString => EmptyString
  | String c s' =>
      match skip with
      | S k => replace_from old new k s'
      | O =>
          if prefix old s
          then new ++ replace_from old new (length old - 1) s'
          else String c (replace_from old new 0 s')
      end
  end.

Definition replace (old new s : string) : string := replace_from old new 0 s.

(** ["".join(parts)] *)
Definition join (parts : list string) : string := concat "" parts.

(** Truth value of a [str]. *)
Definition nonempty (s : string) : bool :=
  match s with EmptyString => false | String _ _ => true end.

(** [x or None] for a [str] [x]. *)
Definition or_None (s : string) : option string :=
  if nonempty s then Some s else None.

(** [x or ""] for an [Optional[str]] [x]. *)
Definition or_empty (o : option string) : string :=
  match o with
  | Some (String _ _ as s) => s
  | _ => ""
  end.

(** [x == lit] for an [Optional[str]] [x] and a string literal. *)
Definition opt_eqb (o : option string) (lit : string) : bool :=
  match o with Some s => String.eqb s lit | None => false end.

(** ** Enumerations *)

Module ChannelType.
Definition ANALYSIS : string := "analysis".
Definition COMMENTARY : string := "commentary".
Definition FINAL : string := "final".
End ChannelType.

Inductive ToolParserState : Type :=
| NORMAL
| FOUND_ARGUMENTS
| END_STREAM.

Definition ToolParserState_eqb (a b : ToolParserState) : bool :=
  match a, b with
  | NORMAL, NORMAL | FOUND_ARGUMENTS, FOUND_ARGUMENTS | END_STREAM, END_STREAM => true
  | _, _ => false
  end.

(** ** Values exchanged with the decoder, and results *)

(** What [StreamableParser.process] hands back: the three attributes the
    parser reads from it. *)
Record StreamText : Type := {
  last_content_delta : option string;
  current_channel : option string;
  current_recipient : option string
}.

Record TextContent : Type := { text : string }.

(** A message of [parse_messages_from_completion_tokens]. *)
Record Message : Type := {
  msg_channel : option string;
  msg_recipient : option string;
  msg_content : list TextContent
}.

Record ToolCall : Type := {
  name : string;
  arguments : string
}.

(** The result dictionary: keys [content], [tool_calls],
    [reasoning_content].  [tool_calls] is [None] or a list. *)
Record ParseResult : Type := {
  content : option string;
  tool_calls : option (list ToolCall);
  reasoning_content : option string
}.

(** How a call ends: it returns a value or an exception propagates. *)
Inductive outcome (E A : Type) : Type :=
| Returned (a : A)
| Raised (e : E).
Arguments Returned {E A} a.
Arguments Raised {E A} e.

(** ** The external engine *)

(** [encode] is [encoding.encode(text, allowed_special="all")], [process]
    is [StreamableParser.process] acting on the decoder's own state, and
    [parse_messages_from_completion_tokens] is the batch decoder with
    [role=Role.ASSISTANT].  Each may raise; [process] may leave the decoder
    in any state when it does. *)
Class HarmonyEngine : Type := {
  token : Type;
  decoder : Type;
  error : Type;
  encode : string -> outcome error (list token);
  new_decoder : decoder;
  process : decoder -> token -> decoder * outcome error StreamText;
  parse_messages_from_completion_tokens :
    list token -> outcome error (list Message)
}.

Section Parser.
Context {engine : HarmonyEngine}.

Inductive exn : Type :=
| HarmonyError (e : error)
| IndexError
| AttributeError.

(** The instance attributes of [HarmonyParser]; [parser] is the state of
    the [StreamableParser] it owns. *)
Record HarmonyParser : Type := {
  parser : decoder;
  state : ToolParserState;
  arguments_buffer : list string;
  function_name_buffer : string
}.

Definition end_tool_chunk : string := "<|call|>".

(** [HarmonyParser.__init__] *)
Definition init : HarmonyParser :=
  {| parser := new_decoder;
     state := NORMAL;
     arguments_buffer := [];
     function_name_buffer := "" |}.

(** *** Methods as state transformers that may raise *)

Definition M (A : Type) : Type :=
  HarmonyParser -> HarmonyParser * outcome exn A.

Definition ret {A} (a : A) : M A := fun self => (self, Returned a).

Definition bind {A B} (m : M A) (k : A -> M B) : M B :=
  fun self =>
    match m self with
    | (self', Returned a) => k a self'
    | (self', Raised e) => (self', Raised e)
    end.

Definition lift_engine {A} (o : outcome error A) : M A :=
  fun self =>
    match o with
    | Returned a => (self, Returned a)
    | Raised e => (self, Raised (HarmonyError e))
    end.

Definition raise {A} (e : exn) : M A := fun self => (self, Raised e).

Definition get_state : M ToolParserState :=
  fun self => (self, Returned (state self)).

Definition set_state (s : ToolParserState) : M unit :=
  fun self =>
    ({| parser := parser self; state := s;
        arguments_buffer := arguments_buffer self;
        function_name_buffer := function_name_buffer self |}, Returned tt).

Definition get_arguments_buffer : M (list string) :=
  fun self => (self, Returned (arguments_buffer self)).

Definition set_arguments_buffer (l : list string) : M unit :=
  fun self =>
    ({| parser := parser self; state := state self;
        arguments_buffer := l;
        function_name_buffer := function_name_buffer self |}, Returned tt).

(** [self.arguments_buffer.append(x)] *)
Definition arguments_buffer_append (x : string) : M unit :=
  fun self =>
    ({| parser := parser self; state := state self;
        arguments_buffer := (arguments_buffer self ++ [x])%list;
        function_name_buffer := function_name_buffer self |}, Returned tt).

Definition get_function_name_buffer : M string :=
  fun self => (self, Returned (function_name_buffer self)).

Definition set_function_name_buffer (s : string) : M unit :=
  fun self =>
    ({| parser := parser self; state := state self;
        arguments_buffer := arguments_buffer self;
        function_name_buffer := s |}, Returned tt).

(** [self.parser.process(tok)] *)
Definition parser_process (tok : token) : M StreamText :=
  fun self =>
    let (d, o) := process (parser self) tok in
    let self' := {| parser := d; state := state self;
                    arguments_buffer := arguments_buffer self;
                    function_name_buffer := function_name_buffer self |} in
    match o with
    | Returned st => (self', Returned st)
    | Raised e => (self', Raised (HarmonyError e))
    end.

End Parser.

Declare Scope harmony_scope.
Delimit Scope harmony_scope with harmony.
Notation "x <- m ;; k" := (bind m (fun x => k))
  (at level 61, m at next level, right associativity) : harmony_scope.
Notation "m ;;; k" := (bind m (fun _ => k))
  (at level 61, right associativity) : harmony_scope.
Open Scope harmony_scope.

Section Methods.
Context {engine : HarmonyEngine}.

(** *** [parse] *)

(** The test shared by both paths:
    [channel == "commentary" or (recipient and "functions." in recipient)]. *)
Definition is_tool_call (channel : option string) (recipient : string) : bool :=
  opt_eqb channel ChannelType.COMMENTARY
  || (nonempty recipient && str_in "functions." recipient).

(** [message.content[0].text] *)
Definition first_text (message : Message) : M string :=
  match msg_content message with
  | [] => raise IndexError
  | c :: _ => ret (text c)
  end.

(** [result["tool_calls"].append(tc)] *)
Definition tool_calls_append (result : ParseResult) (tc : ToolCall)
  : M ParseResult :=
  match tool_calls result with
  | Some l =>
      ret {| content := content result;
             tool_calls := Some (l ++ [tc])%list;
             reasoning_content := reasoning_content result |}
  | None => raise AttributeError
  end.

(** Body of the loop over [parsed_messages]; [result] is the dictionary
    being filled. *)
Definition parse_message (result : ParseResult) (message : Message)
  : M ParseResult :=
  let recipient := or_empty (msg_recipient message) in
  if is_tool_call (msg_channel message) recipient && nonempty recipient then
    t <- first_text message ;;
    tool_calls_append result
      {| name := replace "functions." "" recipient; arguments := t |}
  else if opt_eqb (msg_channel message) ChannelType.ANALYSIS then
    t <- first_text message ;;
    ret {| content := content result;
           tool_calls := tool_calls result;
           reasoning_content := Some t |}
  else if opt_eqb (msg_channel message) ChannelType.FINAL then
    t <- first_text message ;;
    ret {| content := Some t;
           tool_calls := tool_calls result;
           reasoning_content := reasoning_content result |}
  else ret result.

Fixpoint parse_messages (messages : list Message) (result : ParseResult)
  : M ParseResult :=
  match messages with
  | [] => ret result
  | message :: rest =>
      result' <- parse_message result message ;;
      parse_messages rest result'
  end.

(** The truncation both entry points start with. *)
Definition truncate (s : string) : string :=
  slice_to s (find end_tool_chunk s + Z.of_nat (length end_tool_chunk)).

Definition parse (text : string) : M ParseResult :=
  let text := if str_in end_tool_chunk text then truncate text else text in
  let result := {| content := None; tool_calls := Some [];
                   reasoning_content := None |} in
  tokens <- lift_engine (encode text) ;;
  parsed_messages <- lift_engine (parse_messages_from_completion_tokens tokens) ;;
  parse_messages parsed_messages result.

(** *** [_build_result] *)
Definition _build_result (reasoning_contents : list string)
    (tool_calls : option (list ToolCall)) (contents : list string)
  : ParseResult :=
  {| content := or_None (join contents);
     tool_calls := tool_calls;
     reasoning_content := or_None (join reasoning_contents) |}.

(** *** [parse_streaming] *)

(** The two lists local to one call. *)
Record locals : Type := {
  reasoning_contents : list string;
  contents : list string
}.

(** Body of the loop over [chunk_tokens]. *)
Definition process_token (loc : locals) (chunk_token : token) : M locals :=
  stream_text <- parser_process chunk_token ;;
  match last_content_delta stream_text with
  | None | Some EmptyString => ret loc
  | Some (String _ _ as delta) =>
      st <- get_state ;;
      match st with
      | FOUND_ARGUMENTS =>
          arguments_buffer_append delta ;;;
          ret loc
      | _ =>
          let channel := current_channel stream_text in
          let recipient := or_empty (current_recipient stream_text) in
          if is_tool_call channel recipient then
            set_state FOUND_ARGUMENTS ;;;
            arguments_buffer_append delta ;;;
            set_function_name_buffer (replace "functions." "" recipient) ;;;
            ret loc
          else if opt_eqb channel ChannelType.ANALYSIS then
            ret {| reasoning_contents := (reasoning_contents loc ++ [delta])%list;
                   contents := contents loc |}
          else if opt_eqb channel ChannelType.FINAL then
            ret {| reasoning_contents := reasoning_contents loc;
                   contents := (contents loc ++ [delta])%list |}
          else ret loc
      end
  end.

Fixpoint process_tokens (chunk_tokens : list token) (loc : locals) : M locals :=
  match chunk_tokens with
  | [] => ret loc
  | chunk_token :: rest =>
      loc' <- process_token loc chunk_token ;;
      process_tokens rest loc'
  end.

(** Encoding of the chunk and the loop: everything between the end-marker
    test and the final [if end_stream_state]. *)
Definition process_chunk (chunk : string) : M locals :=
  chunk_tokens <- lift_engine (encode chunk) ;;
  process_tokens chunk_tokens {| reasoning_contents := []; contents := [] |}.

(** The [if end_stream_state:] block. *)
Definition finish_stream (loc : locals) : M (option ParseResult * bool) :=
  fname <- get_function_name_buffer ;;
  args <- get_arguments_buffer ;;
  let tool_calls := [{| name := fname; arguments := join args |}] in
  set_arguments_buffer [] ;;;
  set_function_name_buffer "" ;;;
  set_state END_STREAM ;;;
  ret (Some (_build_result (reasoning_contents loc) (Some tool_calls)
               (contents loc)), true).

Definition parse_streaming (chunk : string) : M (option ParseResult * bool) :=
  st <- get_state ;;
  match st with
  | END_STREAM => ret (None, true)
  | _ =>
      let end_stream_state := str_in end_tool_chunk chunk in
      let chunk := if end_stream_state then truncate chunk else chunk in
      loc <- process_chunk chunk ;;
      if end_stream_state then finish_stream loc
      else ret (Some (_build_result (reasoning_contents loc) None
                        (contents loc)), false)
  end.

(** *** [handle_parse_streaming_end] *)
Definition handle_parse_streaming_end : M (option ParseResult * bool) :=
  st <- get_state ;;
  match st with
  | FOUND_ARGUMENTS => parse_streaming end_tool_chunk
  | _ => ret (None, false)
  end.

End Methods.

(** ** Observing the decoder and whole sessions *)

Section Observations.
Context {engine : HarmonyEngine}.

(** What the decoder reports for a token sequence, up to the first token
    it rejects: its final state, the reports, and the error if any. *)
Fixpoint run_decoder (d : decoder) (toks : list token)
  : decoder * list StreamText * option error :=
  match toks with
  | [] => (d, [], None)
  | t :: rest =>
      match process d t with
      | (d', Returned st) =>
          let '(d'', l, e) := run_decoder d' rest in (d'', st :: l, e)
      | (d', Raised e) => (d', [], Some e)
      end
  end.

Definition delta (st : StreamText) : string :=
  or_empty (last_content_delta st).

(** The reports that carry a non-empty delta. *)
Definition visible (trace : list StreamText) : list StreamText :=
  filter (fun st => nonempty (delta st)) trace.

(** The reports' deltas, empty ones left out. *)
Definition deltas (trace : list StreamText) : list string :=
  map delta (visible trace).

Definition tool_delta (st : StreamText) : bool :=
  is_tool_call (current_channel st) (or_empty (current_recipient st)).

Definition on_channel (c : string) (st : StreamText) : bool :=
  opt_eqb (current_channel st) c.

(** The reports before the first one classified as a tool call, and the
    reports from that one on. *)
Fixpoint before_tool (l : list StreamText) : list StreamText :=
  match l with
  | [] => []
  | st :: rest => if tool_delta st then [] else st :: before_tool rest
  end.

Fixpoint from_tool (l : list StreamText) : list StreamText :=
  match l with
  | [] => []
  | st :: rest => if tool_delta st then l else from_tool rest
  end.

(** Of the visible reports of one call, those that can reach the call's
    [content] and [reasoning_content] and those that go to the argument
    buffer; [st0] is the state the call starts in. *)
Definition surfaced (st0 : ToolParserState) (trace : list StreamText)
  : list StreamText :=
  match st0 with
  | FOUND_ARGUMENTS => []
  | _ => before_tool (visible trace)
  end.

Definition captured (st0 : ToolParserState) (trace : list StreamText)
  : list StreamText :=
  match st0 with
  | FOUND_ARGUMENTS => visible trace
  | _ => from_tool (visible trace)
  end.

(** The instance once the loop has consumed [trace] and left the decoder
    in [d]. *)
Definition after_loop (self : HarmonyParser) (d : decoder)
    (trace : list StreamText) : HarmonyParser :=
  {| parser := d;
     state :=
       match captured (state self) trace with
       | [] => state self
       | _ :: _ => FOUND_ARGUMENTS
       end;
     arguments_buffer :=
       (arguments_buffer self ++ map delta (captured (state self) trace))%list;
     function_name_buffer :=
       match state self, captured (state self) trace with
       | FOUND_ARGUMENTS, _ | _, [] => function_name_buffer self
       | _, st :: _ => replace "functions." "" (or_empty (current_recipient st))
       end |}.

(** The two local lists once the loop has consumed [trace]. *)
Definition loop_locals (st0 : ToolParserState) (trace : list StreamText)
    (loc : locals) : locals :=
  {| reasoning_contents :=
       (reasoning_contents loc
        ++ map delta (filter (on_channel ChannelType.ANALYSIS)
                        (surfaced st0 trace)))%list;
     contents :=
       (contents loc
        ++ map delta (filter (on_channel ChannelType.FINAL)
                        (surfaced st0 trace)))%list |}.

(** The local lists as a call starts with them. *)
Definition no_locals : locals :=
  {| reasoning_contents := []; contents := [] |}.

(** The chunk as it reaches the tokenizer. *)
Definition effective_chunk (chunk : string) : string :=
  if str_in end_tool_chunk chunk then truncate chunk else chunk.

(** The calls a streaming session is made of. *)
Inductive call : Type :=
| Streaming (chunk : string)
| StreamEnd.

Definition run_call (c : call) : M (option ParseResult * bool) :=
  match c with
  | Streaming chunk => parse_streaming chunk
  | StreamEnd => handle_parse_streaming_end
  end.

(** A session: the calls are made in order on one instance, whether or
    not an earlier one raised.  The outcomes are listed in call order. *)
Fixpoint run_session (calls : list call) (self : HarmonyParser)
  : HarmonyParser * list (outcome exn (option ParseResult * bool)) :=
  match calls with
  | [] => (self, [])
  | c :: rest =>
      let (self', o) := run_call c self in
      let (self'', os) := run_session rest self' in
      (self'', o :: os)
  end.

(** The [tool_calls] entries a call hands to its caller. *)
Definition emitted (o : outcome exn (option ParseResult * bool))
  : list ToolCall :=
  match o with
  | Returned (Some r, _) =>
      match tool_calls r with Some l => l | None => [] end
  | _ => []
  end.

Definition emitted_in_session
    (os : list (outcome exn (option ParseResult * bool))) : list ToolCall :=
  flat_map emitted os.

(** States an instance can be in between calls. *)
Definition reachable (self : HarmonyParser) : Prop :=
  exists calls, fst (run_session calls init) = self.

(** What holds of the streaming attributes between calls. *)
Definition stream_invariant (self : HarmonyParser) : Prop :=
  (function_name_buffer self <> "" -> state self = FOUND_ARGUMENTS) /\
  (state self = NORMAL -> arguments_buffer self = []) /\
  (state self = END_STREAM ->
   arguments_buffer self = [] /\ function_name_buffer self = "").

(** The instance as the [if end_stream_state:] block leaves it. *)
Definition closed (d : decoder) : HarmonyParser :=
  {| parser := d; state := END_STREAM;
     arguments_buffer := []; function_name_buffer := "" |}.

(** The guard of the tool-call branch of [parse]. *)
Definition tool_message (m : Message) : bool :=
  is_tool_call (msg_channel m) (or_empty (msg_recipient m))
  && nonempty (or_empty (msg_recipient m)).

(** What one tool-call message contributes to [tool_calls]. *)
Definition entry_of (m : Message) (tc : ToolCall) : Prop :=
  name tc = replace "functions." "" (or_empty (msg_recipient m)) /\
  exists c rest, msg_content m = c :: rest /\ arguments tc = text c.

End Observations.

(** ** A reference engine

    Special tokens are single tokens, every other character is a token of
    its own.  A message is [<|channel|>NAME[ to=RECIPIENT]<|message|>BODY]
    closed by [<|end|>], [<|call|>] or [<|return|>]; the decoder reports one
    delta per body character. *)

Module Toy.

Inductive tok : Type :=
| TStart | TChannel | TMessage | TEnd | TCall | TReturn
| TChar (c : ascii).

Fixpoint tokenize (skip : nat) (s : string) : list tok :=
  match s with
  | EmptyString => []
  | String c s' =>
      match skip with
      | S k => tokenize k s'
      | O =>
          if prefix "<|start|>" s then TStart :: tokenize 8 s'
          else if prefix "<|channel|>" s then TChannel :: tokenize 10 s'
          else if prefix "<|message|>" s then TMessage :: tokenize 10 s'
          else if prefix "<|end|>" s then TEnd :: tokenize 6 s'
          else if prefix "<|call|>" s then TCall :: tokenize 7 s'
          else if prefix "<|return|>" s then TReturn :: tokenize 9 s'
          else TChar c :: tokenize 0 s'
      end
  end.

Inductive phase : Type := Header | Body.

Record dstate : Type := {
  ph : phase;
  header : string;
  chan : option string;
  recip : option string;
  body : string
}.

Definition start : dstate :=
  {| ph := Header; header := ""; chan := None; recip := None; body := "" |}.

Fixpoint before_space (s : string) : string :=
  match s with
  | EmptyString => EmptyString
  | String c s' =>
      if Ascii.eqb c " " then EmptyString else String c (before_space s')
  end.

Fixpoint after_space (s : string) : option string :=
  match s with
  | EmptyString => None
  | String c s' => if Ascii.eqb c " " then Some s' else after_space s'
  end.

Definition header_recipient (h : string) : option string :=
  match after_space h with
  | Some r =>
      if prefix "to=" r then Some (substring 3 (length r - 3) r) else None
  | None => None
  end.

Definition report (d : dstate) (dl : option string) : StreamText :=
  {| last_content_delta := dl;
     current_channel := chan d;
     current_recipient := recip d |}.

Definition quiet (d : dstate) : dstate * outcome string StreamText :=
  (d, Returned (report d None)).

Definition step (d : dstate) (t : tok) : dstate * outcome string StreamText :=
  match ph d, t with
  | _, TStart => quiet start
  | Header, TChannel => quiet start
  | Header, TChar c =>
      quiet {| ph := Header; header := header d ++ String c "";
               chan := None; recip := None; body := "" |}
  | Header, TMessage =>
      quiet {| ph := Body; header := "";
               chan := Some (before_space (header d));
               recip := header_recipient (header d); body := "" |}
  | Header, _ => (d, Raised "unexpected token in header")
  | Body, TChar c =>
      let d' := {| ph := Body; header := ""; chan := chan d;
                   recip := recip d; body := body d ++ String c "" |} in
      (d', Returned (report d' (Some (String c ""))))
  | Body, (TEnd | TCall | TReturn) => quiet start
  | Body, _ => (d, Raised "unexpected token in body")
  end.

Definition message_of (d : dstate) : Message :=
  {| msg_channel := chan d; msg_recipient := recip d;
     msg_content := [{| text := body d |}] |}.

Fixpoint messages (d : dstate) (toks : list tok)
  : outcome string (list Message) :=
  match toks with
  | [] =>
      match ph d with
      | Body => Returned [message_of d]
      | Header => Returned []
      end
  | t :: rest =>
      match step d t with
      | (d', Returned _) =>
          let closes :=
            match ph d, t with
            | Body, (TEnd | TCall | TReturn) => true
            | _, _ => false
            end in
          match messages d' rest with
          | Returned l => Returned (if closes then message_of d :: l else l)
          | Raised e => Raised e
          end
      | (_, Raised e) => Raised e
      end
  end.

#[export] Instance engine : HarmonyEngine :=
  {| token := tok;
     decoder := dstate;
     error := string;
     encode := fun s => Returned (tokenize 0 s);
     new_decoder := start;
     process := step;
     parse_messages_from_completion_tokens := messages start |}.

(** The calls of the scenario "a tool call spread over four chunks". *)
Definition weather_session : list call :=
  [ Streaming "<|channel|>commentary to=functions.get_weather<|message|>";
    Streaming "{city:";
    Streaming "NYC}";
    Streaming "<|call|>" ].

(** An instance that has seen the first three chunks. *)
Definition mid_call : HarmonyParser :=
  fst (run_session (firstn 3 weather_session) init).

(** An instance whose stream is over. *)
Definition finished : HarmonyParser :=
  fst (run_session weather_session init).

(** A commentary message without recipient (a preamble), streamed. *)
Definition preamble_chunk : string := "<|channel|>commentary<|message|>hi".

Definition preamble : HarmonyParser :=
  fst (run_session [Streaming preamble_chunk] init).

(** The same message, complete, for the one-shot path. *)
Definition preamble_text : string :=
  "<|channel|>commentary<|message|>hi<|end|>".

Definition preamble_message : Message :=
  {| msg_channel := Some "commentary"; msg_recipient := None;
     msg_content := [{| text := "hi" |}] |}.

(** A complete tool call followed by text that must be ignored. *)
Definition call_text : string :=
  "<|channel|>commentary to=functions.get_weather<|message|>{}<|call|>junk<|call|>".

Definition call_message : Message :=
  {| msg_channel := Some "commentary";
     msg_recipient := Some "functions.get_weather";
     msg_content := [{| text := "{}" |}] |}.

(** A chunk that closes the current message and opens a final one. *)
Definition switch_chunk : string := "<|end|><|channel|>final<|message|>hi".

(** A chunk with reasoning and final output and no end marker. *)
Definition plain_chunk : string :=
  "<|channel|>analysis<|message|>hm<|end|><|channel|>final<|message|>ok".

(** Final output followed by an end marker, without any tool call. *)
Definition stray_marker_chunk : string :=
  "<|channel|>final<|message|>ok<|call|>tail".

(** The decoder run on a chunk, from the decoder state of [self]. *)
Definition decoded (self : HarmonyParser) (chunk : string)
  : dstate * list StreamText * option string :=
  run_decoder (parser self) (tokenize 0 chunk).

End Toy.

(** ** Further observations *)

Section FurtherObservations.
Context {engine : HarmonyEngine}.

(** The order in which an instance goes through its states. *)
Definition rank (s : ToolParserState) : nat :=
  match s with
  | NORMAL => 0
  | FOUND_ARGUMENTS => 1
  | END_STREAM => 2
  end.

(** How a caller puts the text of two consecutive results together. *)
Definition merge (a b : option string) : option string :=
  match a, b with
  | None, y => y
  | x, None => x
  | Some x, Some y => Some (x ++ y)
  end.

(** Two consecutive streaming results seen as one. *)
Definition combine (ra rb : ParseResult) : ParseResult :=
  {| content := merge (content ra) (content rb);
     tool_calls := tool_calls rb;
     reasoning_content := merge (reasoning_content ra) (reasoning_content rb) |}.

Definition locals_app (l1 l2 : locals) : locals :=
  {| reasoning_contents := (reasoning_contents l1 ++ reasoning_contents l2)%list;
     contents := (contents l1 ++ contents l2)%list |}.

(** A message that [parse] sends to [reasoning_content] ([c] the analysis
    channel) or to [content] ([c] the final channel). *)
Definition plain_on (c : string) (m : Message) : bool :=
  negb (tool_message m) && opt_eqb (msg_channel m) c.

(** The first-block texts of those messages, in message order. *)
Definition texts_on (c : string) (msgs : list Message) : list string :=
  flat_map (fun m =>
              if plain_on c m then
                match msg_content m with
                | t :: _ => [text t]
                | [] => []
                end
              else []) msgs.

(** A message whose first content block [parse] reads. *)
Definition needs_text (m : Message) : bool :=
  tool_message m
  || opt_eqb (msg_channel m) ChannelType.ANALYSIS
  || opt_eqb (msg_channel m) ChannelType.FINAL.

Definition lacks_text (m : Message) : bool :=
  needs_text m && match msg_content m with [] => true | _ :: _ => false end.

(** The non-empty deltas the decoder reports over consecutive chunks, the
    decoder state being carried from chunk to chunk; [None] when the
    tokenizer or the decoder rejects one of them. *)
Fixpoint stream_deltas (d : decoder) (chunks : list string)
  : option (decoder * list string) :=
  match chunks with
  | [] => Some (d, [])
  | c :: rest =>
      match encode c with
      | Returned toks =>
          match run_decoder d toks with
          | (d', trace, None) =>
              match stream_deltas d' rest with
              | Some (d'', ds) => Some (d'', (deltas trace ++ ds)%list)
              | None => None
              end
          | (_, _, Some _) => None
          end
      | Raised _ => None
      end
  end.

End FurtherObservations.

Module ToyCases.
Import Toy.

(** The end marker arriving while the decoder still expects a header. *)
Definition early_marker : string := "<|call|>".

(** A tool call started on the analysis channel, after some reasoning. *)
Definition onset_chunk : string :=
  "<|channel|>analysis<|message|>hm<|end|><|channel|>analysis to=functions.f<|message|>{}".

(** Reasoning and final text, cut in two. *)
Definition first_half : string := "<|channel|>analysis<|message|>hm<|end|><|channel|>final<|message|>o".
Definition second_half : string := "k<|call|>rest".

(** Two analysis messages, two final ones and a tool call. *)
Definition busy_text : string :=
  "<|channel|>analysis<|message|>a1<|end|><|channel|>final<|message|>f1<|end|><|channel|>analysis to=functions.run<|message|>{}<|call|>".

Definition busy_text2 : string :=
  "<|channel|>analysis<|message|>a1<|end|><|channel|>analysis<|message|>a2<|end|><|channel|>final<|message|>f1<|end|><|channel|>final<|message|>f2<|end|>".

(** An engine whose batch decoder returns one final message without any
    content block. *)
Definition hollow_message : Message :=
  {| msg_channel := Some "final"; msg_recipient := None; msg_content := [] |}.

Definition hollow_engine : HarmonyEngine :=
  {| token := tok;
     decoder := dstate;
     error := string;
     encode := fun s => Returned (tokenize 0 s);
     new_decoder := start;
     process := step;
     parse_messages_from_completion_tokens := fun _ => Returned [hollow_message] |}.

(** An instance in the middle of a tool call, and the rest of its
    arguments in three pieces. *)
Definition capturing : HarmonyParser :=
  fst (run_session (firstn 2 weather_session) init).

Definition argument_pieces : list string := ["N"; "YC"; "}"].

End ToyCases.

(** * Properties *)

(** ** Strings *)

Section StringFacts.

Lemma append_assoc (a b c : string) : (a ++ b) ++ c = a ++ (b ++ c).
Proof. induction a as [|x a IH]; simpl; [reflexivity | now rewrite IH]. Qed.

Lemma append_empty_r (a : string) : a ++ "" = a.
Proof. induction a as [|x a IH]; simpl; [reflexivity | now rewrite IH]. Qed.

Lemma prefix_append (sub q : string) : prefix sub (sub ++ q) = true.
Proof.
  induction sub as [|x sub IH]; simpl.
  - now destruct q.
  - destruct (ascii_dec x x) as [_|n]; [exact IH | now elim n].
Qed.

Lemma prefix_split (sub s : string) :
  prefix sub s = true -> exists q, s = sub ++ q.
Proof.
  revert s; induction sub as [|x sub IH]; intros s H.
  - exists s; reflexivity.
  - destruct s as [|y s]; simpl in H; [discriminate|].
    destruct (ascii_dec x y) as [->|]; [|discriminate].
    destruct (IH _ H) as [q ->]. now exists q.
Qed.

Lemma take_append (a b : string) : take (length a) (a ++ b) = a.
Proof. induction a as [|x a IH]; simpl; [now destruct b | now rewrite IH]. Qed.

Lemma str_in_here (sub s : string) :
  prefix sub s = true -> str_in sub s = true.
Proof. intros H. destruct s; cbn [str_in]; now rewrite H. Qed.

Lemma str_in_later (sub s : string) (x : ascii) :
  str_in sub s = true -> str_in sub (String x s) = true.
Proof. intros H. cbn [str_in]. rewrite H. now destruct (prefix sub _). Qed.

Lemma str_in_occurrence (sub p q : string) :
  str_in sub (p ++ sub ++ q) = true.
Proof.
  induction p as [|x p IH].
  - cbn [append]. apply str_in_here, prefix_append.
  - cbn [append]. apply str_in_later, IH.
Qed.

Lemma find_lower (sub s : string) : (-1 <= find sub s)%Z.
Proof.
  induction s as [|x s IH]; cbn [find].
  - destruct (prefix sub ""); lia.
  - destruct (prefix sub (String x s)); [lia|].
    destruct (Z.ltb_spec (find sub s) 0); lia.
Qed.

Lemma find_found (sub s : string) :
  str_in sub s = true -> (0 <= find sub s)%Z.
Proof.
  induction s as [|x s IH]; cbn [find str_in].
  - destruct (prefix sub ""); [lia | discriminate].
  - destruct (prefix sub (String x s)); [lia|]. intros H.
    specialize (IH H). destruct (Z.ltb_spec (find sub s) 0); lia.
Qed.

(** [s[: s.find(sub) + len(sub)]] when [sub] occurs in [s]: the text up to
    and including the leftmost occurrence. *)
Lemma cut_leftmost (sub s : string) :
  str_in sub s = true ->
  exists pre post,
    s = pre ++ sub ++ post /\
    (forall p q, s = p ++ sub ++ q -> length pre <= length p) /\
    slice_to s (find sub s + Z.of_nat (length sub)) = pre ++ sub.
Proof.
  induction s as [|x s IH]; intros H.
  - exists "", "". cbn [str_in] in H.
    destruct (prefix sub "") eqn:P; [|discriminate].
    destruct sub; [|discriminate]. repeat split; intros; simpl; lia.
  - cbn [str_in] in H. destruct (prefix sub (String x s)) eqn:P.
    + destruct (prefix_split _ _ P) as [q E].
      exists "", q. rewrite E at 1. split; [reflexivity|].
      split; [intros; simpl; lia|].
      unfold slice_to. cbn [find]. rewrite P.
      replace (0 + Z.of_nat (length sub) <? 0)%Z with false
        by (symmetry; apply Z.ltb_ge; lia).
      rewrite Z.add_0_l, Nat2Z.id, E. apply take_append.
    + destruct (IH H) as (pre & post & E & Hmin & Hcut).
      exists (String x pre), post. split; [simpl; now rewrite <- E|].
      split.
      * intros p q Epq. destruct p as [|y p].
        -- simpl in Epq. rewrite Epq, prefix_append in P. discriminate.
        -- simpl in Epq. injection Epq as _ Epq.
           specialize (Hmin _ _ Epq). simpl. lia.
      * pose proof (find_found _ _ H) as Hf.
        cbn [find]. rewrite P.
        replace (find sub s <? 0)%Z with false
          by (symmetry; apply Z.ltb_ge; lia).
        unfold slice_to in *.
        replace (find sub s + 1 + Z.of_nat (length sub) <? 0)%Z with false
          by (symmetry; apply Z.ltb_ge; lia).
        replace (find sub s + Z.of_nat (length sub) <? 0)%Z with false in Hcut
          by (symmetry; apply Z.ltb_ge; lia).
        replace (Z.to_nat (find sub s + 1 + Z.of_nat (length sub)))
          with (S (Z.to_nat (find sub s + Z.of_nat (length sub)))) by lia.
        simpl. now rewrite Hcut.
Qed.

Lemma append_same_length (a b c d : string) :
  a ++ b = c ++ d -> length a = length c -> a = c /\ b = d.
Proof.
  revert c; induction a as [|x a IH]; intros [|y c] E L; simpl in *;
    try discriminate.
  - now split.
  - injection E as -> E. injection L as L.
    destruct (IH _ E L) as [-> ->]. now split.
Qed.

(** Cutting is idempotent: the cut text ends with its only occurrence. *)
Lemma cut_of_cut (sub s pre post : string) :
  s = pre ++ sub ++ post ->
  (forall p q, s = p ++ sub ++ q -> length pre <= length p) ->
  slice_to (pre ++ sub) (find sub (pre ++ sub) + Z.of_nat (length sub))
  = pre ++ sub.
Proof.
  intros E Hmin.
  assert (Hin : str_in sub (pre ++ sub) = true).
  { rewrite <- (append_empty_r sub) at 2. apply str_in_occurrence. }
  destruct (cut_leftmost _ _ Hin) as (pre' & post' & E' & Hmin' & Hcut).
  rewrite Hcut.
  assert (L : length pre' = length pre).
  { apply Nat.le_antisymm.
    - apply (Hmin' pre ""). now rewrite append_empty_r.
    - apply (Hmin pre' (post' ++ post)).
      rewrite E, <- (append_assoc pre sub post), E', !append_assoc.
      reflexivity. }
  symmetry in E'.
  destruct (append_same_length _ _ _ _ E' L) as [-> _]. reflexivity.
Qed.

End StringFacts.

(** ** The token loop *)

Section LoopFacts.
Context {engine : HarmonyEngine}.

Lemma analysis_not_final (c : option string) :
  opt_eqb c ChannelType.ANALYSIS = true -> opt_eqb c ChannelType.FINAL = false.
Proof.
  destruct c as [s|]; simpl; [|discriminate].
  intros H. apply String.eqb_eq in H. now subst.
Qed.

Lemma visible_delta (st : StreamText) (c : ascii) (s : string) :
  last_content_delta st = Some (String c s) ->
  delta st = String c s /\ nonempty (delta st) = true.
Proof. unfold delta. intros ->. now split. Qed.

Lemma silent_delta (st : StreamText) :
  last_content_delta st = None \/ last_content_delta st = Some "" ->
  nonempty (delta st) = false.
Proof. unfold delta. now intros [-> | ->]. Qed.

(** While capturing, the loop only grows the argument buffer. *)
Lemma process_tokens_capturing (toks : list token) :
  forall (loc : locals) (self : HarmonyParser),
    state self = FOUND_ARGUMENTS ->
    process_tokens toks loc self =
      let '(d, trace, err) := run_decoder (parser self) toks in
      ({| parser := d; state := FOUND_ARGUMENTS;
          arguments_buffer := (arguments_buffer self ++ deltas trace)%list;
          function_name_buffer := function_name_buffer self |},
       match err with
       | None => Returned loc
       | Some e => Raised (HarmonyError e)
       end).
Proof.
  induction toks as [|t toks IH]; intros loc [d0 s0 a0 n0] Hs;
    simpl in Hs; subst s0.
  - simpl. unfold ret, deltas. simpl. now rewrite app_nil_r.
  - cbn [process_tokens run_decoder].
    unfold bind at 1. unfold process_token, bind at 1, parser_process.
    cbn [parser state arguments_buffer function_name_buffer].
    destruct (process d0 t) as [d1 [st|e]].
    + destruct (last_content_delta st) as [[|c s]|] eqn:E.
      * unfold ret. rewrite IH by reflexivity. simpl.
        destruct (run_decoder d1 toks) as [[d2 tr] err].
        unfold deltas, visible. cbn [filter].
        rewrite (silent_delta st) by auto. reflexivity.
      * unfold bind, get_state, arguments_buffer_append, ret. simpl.
        rewrite IH by reflexivity. simpl.
        destruct (run_decoder d1 toks) as [[d2 tr] err].
        unfold deltas, visible. cbn [filter].
        destruct (visible_delta st c s E) as [Hd Hn]. rewrite Hn, <- Hd.
        cbn [map]. now rewrite <- app_assoc.
      * unfold ret. rewrite IH by reflexivity. simpl.
        destruct (run_decoder d1 toks) as [[d2 tr] err].
        unfold deltas, visible. cbn [filter].
        rewrite (silent_delta st) by auto. reflexivity.
    + unfold deltas. simpl. now rewrite app_nil_r.
Qed.

Lemma visible_shown (st : StreamText) (tr : list StreamText) :
  nonempty (delta st) = true -> visible (st :: tr) = st :: visible tr.
Proof. intros H. unfold visible. cbn [filter]. now rewrite H. Qed.

Lemma visible_silent (st : StreamText) (tr : list StreamText) :
  nonempty (delta st) = false -> visible (st :: tr) = visible tr.
Proof. intros H. unfold visible. cbn [filter]. now rewrite H. Qed.

(** Outside capture mode, the loop surfaces analysis and final deltas up
    to the first tool-call delta and captures everything from there on. *)
Lemma process_tokens_watching (toks : list token) :
  forall (loc : locals) (self : HarmonyParser),
    state self <> FOUND_ARGUMENTS ->
    process_tokens toks loc self =
      let '(d, trace, err) := run_decoder (parser self) toks in
      (after_loop self d trace,
       match err with
       | None => Returned (loop_locals (state self) trace loc)
       | Some e => Raised (HarmonyError e)
       end).
Proof.
  induction toks as [|t toks IH]; intros [rc cs] [d0 s0 a0 n0] Hs;
    simpl in Hs.
  - destruct s0; try (now elim Hs);
      unfold ret, after_loop, loop_locals; cbn; now rewrite !app_nil_r.
  - cbn [process_tokens run_decoder].
    unfold bind at 1. unfold process_token, bind at 1, parser_process.
    cbn [parser state arguments_buffer function_name_buffer].
    destruct (process d0 t) as [d1 [st|e]].
    2:{ destruct s0; try (now elim Hs);
        unfold after_loop; cbn; now rewrite !app_nil_r. }
    destruct (last_content_delta st) as [[|c s]|] eqn:E.
    1,3: unfold ret; rewrite IH by exact Hs;
         cbn [parser state arguments_buffer function_name_buffer];
         destruct (run_decoder d1 toks) as [[d2 tr] err];
         unfold after_loop, loop_locals, captured, surfaced;
         cbn [parser state arguments_buffer function_name_buffer
              reasoning_contents contents];
         rewrite (visible_silent st tr) by (apply silent_delta; auto);
         reflexivity.
    destruct (visible_delta st c s E) as [Hd Hn].
    assert (Hget : forall (A : Type) (k : ToolParserState -> M A) x,
               state x = s0 -> bind get_state k x = k s0 x).
    { intros A k x <-. reflexivity. }
    rewrite Hget by reflexivity.
    assert (Hbranch : forall (A : Type) (a b : A),
               match s0 with FOUND_ARGUMENTS => a | _ => b end = b).
    { intros; destruct s0; try reflexivity; now elim Hs. }
    rewrite Hbranch.
    destruct (is_tool_call (current_channel st)
                (or_empty (current_recipient st))) eqn:T.
    + unfold bind, set_state, arguments_buffer_append,
        set_function_name_buffer, ret.
      cbn [parser state arguments_buffer function_name_buffer].
      rewrite process_tokens_capturing by reflexivity.
      cbn [parser state arguments_buffer function_name_buffer].
      destruct (run_decoder d1 toks) as [[d2 tr] err].
      unfold after_loop, loop_locals, captured, surfaced.
      cbn [parser state arguments_buffer function_name_buffer
           reasoning_contents contents].
      rewrite !Hbranch, (visible_shown st tr Hn).
      cbn [from_tool before_tool]. unfold tool_delta. rewrite T.
      cbn [map filter]. rewrite !app_nil_r, <- app_assoc, Hd.
      destruct s0; try (now elim Hs); reflexivity.
    + destruct (opt_eqb (current_channel st) ChannelType.ANALYSIS) eqn:A;
        [|destruct (opt_eqb (current_channel st) ChannelType.FINAL) eqn:F];
        unfold ret; rewrite IH by exact Hs;
        cbn [parser state arguments_buffer function_name_buffer];
        destruct (run_decoder d1 toks) as [[d2 tr] err];
        unfold after_loop, loop_locals, captured, surfaced;
        cbn [parser state arguments_buffer function_name_buffer
             reasoning_contents contents];
        rewrite !Hbranch, (visible_shown st tr Hn);
        cbn [from_tool before_tool]; unfold tool_delta; rewrite T;
        cbn [filter]; unfold on_channel.
      * rewrite A, (analysis_not_final _ A). cbn [map].
        rewrite <- app_assoc, Hd. reflexivity.
      * rewrite A, F. cbn [map]. rewrite <- app_assoc, Hd. reflexivity.
      * rewrite A, F. reflexivity.
Qed.

(** The loop, whatever state it starts in. *)
Lemma process_tokens_spec (toks : list token) (loc : locals)
    (self : HarmonyParser) (d : decoder) (trace : list StreamText)
    (err : option error) :
  run_decoder (parser self) toks = (d, trace, err) ->
  process_tokens toks loc self =
    (after_loop self d trace,
     match err with
     | None => Returned (loop_locals (state self) trace loc)
     | Some e => Raised (HarmonyError e)
     end).
Proof.
  intros R. destruct (state self) eqn:Hs.
  2:{ rewrite process_tokens_capturing, R by exact Hs.
      unfold after_loop, loop_locals, captured, surfaced, deltas.
      rewrite Hs. cbn [filter map]. destruct loc as [rc cs].
      cbn [reasoning_contents contents]. rewrite !app_nil_r.
      now destruct (visible trace). }
  all: rewrite process_tokens_watching, R, Hs by (rewrite Hs; discriminate);
    reflexivity.
Qed.

Lemma process_chunk_spec (chunk : string) (self : HarmonyParser)
    (toks : list token) (d : decoder) (trace : list StreamText)
    (err : option error) :
  encode chunk = Returned toks ->
  run_decoder (parser self) toks = (d, trace, err) ->
  process_chunk chunk self =
    (after_loop self d trace,
     match err with
     | None => Returned (loop_locals (state self) trace no_locals)
     | Some e => Raised (HarmonyError e)
     end).
Proof.
  intros E R. unfold process_chunk, bind at 1, lift_engine. rewrite E.
  now apply process_tokens_spec.
Qed.

Lemma process_chunk_encode_error (chunk : string) (self : HarmonyParser)
    (e : error) :
  encode chunk = Raised e ->
  process_chunk chunk self = (self, Raised (HarmonyError e)).
Proof. intros E. unfold process_chunk, bind, lift_engine. now rewrite E. Qed.

(** [parse_streaming] in terms of its loop. *)
Lemma parse_streaming_unfold (chunk : string) (self : HarmonyParser) :
  state self <> END_STREAM ->
  parse_streaming chunk self =
    match process_chunk (effective_chunk chunk) self with
    | (mid, Returned loc) =>
        if str_in end_tool_chunk chunk then
          ({| parser := parser mid; state := END_STREAM;
              arguments_buffer := []; function_name_buffer := "" |},
           Returned
             (Some (_build_result (reasoning_contents loc)
                      (Some [{| name := function_name_buffer mid;
                                arguments := join (arguments_buffer mid) |}])
                      (contents loc)), true))
        else
          (mid, Returned (Some (_build_result (reasoning_contents loc) None
                                  (contents loc)), false))
    | (mid, Raised e) => (mid, Raised e)
    end.
Proof.
  intros Hs. unfold parse_streaming, bind at 1, get_state, effective_chunk.
  destruct (state self); try (now elim Hs);
    unfold bind at 1;
    destruct (process_chunk _ self) as [mid [loc|e]]; try reflexivity;
    destruct (str_in end_tool_chunk chunk); reflexivity.
Qed.

Lemma parse_streaming_finished (chunk : string) (self : HarmonyParser) :
  state self = END_STREAM ->
  parse_streaming chunk self = (self, Returned (None, true)).
Proof.
  intros Hs. unfold parse_streaming, bind, get_state. now rewrite Hs.
Qed.

Lemma handle_end_flushes (self : HarmonyParser) :
  state self = FOUND_ARGUMENTS ->
  handle_parse_streaming_end self = parse_streaming end_tool_chunk self.
Proof.
  intros Hs. unfold handle_parse_streaming_end, bind at 1, get_state.
  now rewrite Hs.
Qed.

Lemma handle_end_idle (self : HarmonyParser) :
  state self <> FOUND_ARGUMENTS ->
  handle_parse_streaming_end self = (self, Returned (None, false)).
Proof.
  intros Hs. unfold handle_parse_streaming_end, bind, get_state.
  destruct (state self); try reflexivity. now elim Hs.
Qed.

End LoopFacts.

(** ** The one-shot path does not touch the instance *)

Section ParseFrame.
Context {engine : HarmonyEngine}.

Lemma first_text_frame (m : Message) (self : HarmonyParser) :
  fst (first_text m self) = self.
Proof. unfold first_text. now destruct (msg_content m). Qed.

Lemma parse_message_frame (result : ParseResult) (m : Message)
    (self : HarmonyParser) :
  fst (parse_message result m self) = self.
Proof.
  unfold parse_message.
  repeat match goal with
         | |- context [if ?b then _ else _] => destruct b
         end;
    try reflexivity;
    unfold bind; pose proof (first_text_frame m self) as F;
    destruct (first_text m self) as [self' [t|e]]; simpl in F; subst self';
    try reflexivity.
  unfold tool_calls_append. now destruct (tool_calls result).
Qed.

Lemma parse_messages_frame (msgs : list Message) :
  forall (result : ParseResult) (self : HarmonyParser),
    fst (parse_messages msgs result self) = self.
Proof.
  induction msgs as [|m msgs IH]; intros result self; [reflexivity|].
  cbn [parse_messages]. unfold bind.
  pose proof (parse_message_frame result m self) as F.
  destruct (parse_message result m self) as [self' [r|e]]; simpl in F;
    subst self'; [apply IH | reflexivity].
Qed.

Lemma parse_frame (text : string) (self : HarmonyParser) :
  fst (parse text self) = self.
Proof.
  unfold parse, bind, lift_engine.
  destruct (encode _) as [toks|e]; [|reflexivity].
  destruct (parse_messages_from_completion_tokens toks) as [msgs|e];
    [apply parse_messages_frame | reflexivity].
Qed.

End ParseFrame.

(** ** An invariant of the streaming attributes *)

Section Invariant.
Context {engine : HarmonyEngine}.

Lemma init_invariant : stream_invariant init.
Proof. repeat split; simpl; intros; congruence. Qed.

Lemma closed_invariant (d : decoder) : stream_invariant (closed d).
Proof. repeat split; simpl; intros; congruence. Qed.

Lemma after_loop_invariant (self : HarmonyParser) (d : decoder)
    (trace : list StreamText) :
  stream_invariant self -> state self <> END_STREAM ->
  stream_invariant (after_loop self d trace).
Proof.
  intros (Hn & Ha & _) Hs. unfold after_loop, stream_invariant.
  cbn [state arguments_buffer function_name_buffer].
  destruct (state self) eqn:S; [| |now elim Hs].
  - destruct (captured NORMAL trace) as [|st l].
    + cbn [map]. rewrite app_nil_r. repeat split; try discriminate.
      * intros N. specialize (Hn N). discriminate.
      * intros _. now apply Ha.
    + repeat split; discriminate.
  - repeat split; try (destruct (captured _ _); discriminate).
    now destruct (captured _ _).
Qed.

Lemma parse_streaming_steps (chunk : string) (self : HarmonyParser) :
  fst (parse_streaming chunk self) = self \/
  (state self <> END_STREAM /\
   exists d trace,
     fst (parse_streaming chunk self) = after_loop self d trace \/
     fst (parse_streaming chunk self) = closed d).
Proof.
  destruct (ToolParserState_eqb (state self) END_STREAM) eqn:B.
  - left. rewrite parse_streaming_finished; [reflexivity|].
    now destruct (state self).
  - assert (Hs : state self <> END_STREAM)
      by (intros E; rewrite E in B; discriminate).
    rewrite (parse_streaming_unfold _ _ Hs).
    destruct (encode (effective_chunk chunk)) as [toks|e] eqn:E.
    + destruct (run_decoder (parser self) toks) as [[d trace] err] eqn:R.
      rewrite (process_chunk_spec _ _ _ _ _ _ E R).
      right. split; [exact Hs|]. exists d, trace.
      destruct err; [now left|].
      destruct (str_in end_tool_chunk chunk); [now right | now left].
    + rewrite (process_chunk_encode_error _ _ _ E). now left.
Qed.

Lemma parse_streaming_invariant (chunk : string) (self : HarmonyParser) :
  stream_invariant self -> stream_invariant (fst (parse_streaming chunk self)).
Proof.
  intros I.
  destruct (parse_streaming_steps chunk self)
    as [-> | (Hs & d & trace & [-> | ->])];
    [exact I | now apply after_loop_invariant | apply closed_invariant].
Qed.

Lemma run_call_invariant (c : call) (self : HarmonyParser) :
  stream_invariant self -> stream_invariant (fst (run_call c self)).
Proof.
  intros I. destruct c as [chunk|]; cbn [run_call].
  - now apply parse_streaming_invariant.
  - unfold handle_parse_streaming_end, bind at 1, get_state.
    destruct (state self); try exact I.
    now apply parse_streaming_invariant.
Qed.

Lemma run_session_invariant (calls : list call) :
  forall self : HarmonyParser,
    stream_invariant self ->
    stream_invariant (fst (run_session calls self)).
Proof.
  induction calls as [|c calls IH]; intros self I; [exact I|].
  cbn [run_session].
  pose proof (run_call_invariant c self I) as I'.
  destruct (run_call c self) as [self' o]. simpl in I'.
  specialize (IH self' I').
  now destruct (run_session calls self').
Qed.

Lemma reachable_invariant (self : HarmonyParser) :
  reachable self -> stream_invariant self.
Proof.
  intros [calls <-]. apply run_session_invariant, init_invariant.
Qed.

Lemma no_tool_delta (l : list StreamText) :
  existsb tool_delta l = false -> before_tool l = l /\ from_tool l = [].
Proof.
  induction l as [|st l IH]; [now split|].
  cbn [existsb before_tool from_tool].
  destruct (tool_delta st); [discriminate|]. intros H.
  destruct (IH H) as [-> ->]. now split.
Qed.

End Invariant.

(** ** Statements about the streaming interface *)

Section Streaming.
Context {engine : HarmonyEngine}.

(** C3.  Once an instance is in [END_STREAM], [parse_streaming] returns
    [(None, True)] for every chunk and leaves the instance exactly as it
    was (state, argument buffer, function name and decoder), so any
    number of further calls do the same. *)
Theorem finished_is_absorbing (self : HarmonyParser) :
  state self = END_STREAM ->
  (forall chunk : string,
      parse_streaming chunk self = (self, Returned (None, true))) /\
  (forall chunks : list string,
      run_session (map Streaming chunks) self
      = (self, map (fun _ => Returned (None, true)) chunks)).
Proof.
  intros Hs. split.
  - intros chunk. now apply parse_streaming_finished.
  - induction chunks as [|c cs IH]; [reflexivity|].
    cbn [map run_session run_call].
    rewrite parse_streaming_finished by exact Hs. now rewrite IH.
Qed.

(** C10.  [parse] leaves the instance it is called on as it found it:
    state, argument buffer, function name (and the streaming decoder)
    are the same afterwards, whether [parse] returns or raises, so a
    following [parse_streaming] call behaves as if [parse] had not been
    called. *)
Theorem parse_leaves_stream_state (text : string) (self : HarmonyParser) :
  let self' := fst (parse text self) in
  state self' = state self /\
  arguments_buffer self' = arguments_buffer self /\
  function_name_buffer self' = function_name_buffer self /\
  parser self' = parser self /\
  forall chunk : string,
    parse_streaming chunk self' = parse_streaming chunk self.
Proof. cbv zeta. rewrite parse_frame. repeat split. Qed.

(** C7.  In [FOUND_ARGUMENTS], [handle_parse_streaming_end] is
    [parse_streaming] applied to the end marker: when the engine accepts
    the marker it returns one tool call made of the pending name and the
    joined buffer (with whatever the decoder still reports for the
    marker's tokens), flag [True], and leaves the instance in
    [END_STREAM] with cleared buffers; an engine error propagates.  In
    any other state it returns [(None, False)] and changes nothing. *)
Theorem flush_at_stream_end (self : HarmonyParser) :
  (state self = FOUND_ARGUMENTS ->
   handle_parse_streaming_end self = parse_streaming end_tool_chunk self /\
   (forall e, encode end_tool_chunk = Raised e ->
              handle_parse_streaming_end self
              = (self, Raised (HarmonyError e))) /\
   (forall toks d trace err,
       encode end_tool_chunk = Returned toks ->
       run_decoder (parser self) toks = (d, trace, err) ->
       handle_parse_streaming_end self =
         match err with
         | None =>
             ({| parser := d; state := END_STREAM;
                 arguments_buffer := []; function_name_buffer := "" |},
              Returned
                (Some {| content := None;
                         tool_calls :=
                           Some [{| name := function_name_buffer self;
                                    arguments :=
                                      join (arguments_buffer self
                                            ++ deltas trace) |}];
                         reasoning_content := None |}, true))
         | Some e =>
             ({| parser := d; state := FOUND_ARGUMENTS;
                 arguments_buffer :=
                   (arguments_buffer self ++ deltas trace)%list;
                 function_name_buffer := function_name_buffer self |},
              Raised (HarmonyError e))
         end)) /\
  (state self <> FOUND_ARGUMENTS ->
   handle_parse_streaming_end self = (self, Returned (None, false))).
Proof.
  split.
  - intros Hs.
    pose proof (handle_end_flushes self Hs) as H0.
    assert (Hne : state self <> END_STREAM) by (rewrite Hs; discriminate).
    split; [exact H0|]. rewrite H0, (parse_streaming_unfold _ _ Hne).
    change (effective_chunk end_tool_chunk) with end_tool_chunk.
    split.
    + intros e E. now rewrite (process_chunk_encode_error _ _ _ E).
    + intros toks d trace err E R.
      rewrite (process_chunk_spec _ _ _ _ _ _ E R).
      unfold after_loop, loop_locals, captured, surfaced, deltas.
      rewrite Hs. destruct err as [e|].
      * now destruct (visible trace).
      * reflexivity.
  - apply handle_end_idle.
Qed.

(** C4.  A [parse_streaming] call that starts in [FOUND_ARGUMENTS]
    appends every non-empty delta the decoder reports for the (truncated)
    chunk to the argument buffer, in order and whatever channel or
    recipient is reported with it; none of them reaches [content] or
    [reasoning_content].  With the end marker in the chunk the grown
    buffer is joined into the emitted tool call. *)
Theorem capturing_takes_every_delta (self : HarmonyParser) (chunk : string)
    (toks : list token) (d : decoder) (trace : list StreamText)
    (err : option error) :
  state self = FOUND_ARGUMENTS ->
  encode (effective_chunk chunk) = Returned toks ->
  run_decoder (parser self) toks = (d, trace, err) ->
  let grown := (arguments_buffer self ++ deltas trace)%list in
  let capturing :=
    {| parser := d; state := FOUND_ARGUMENTS; arguments_buffer := grown;
       function_name_buffer := function_name_buffer self |} in
  parse_streaming chunk self =
    match err with
    | Some e => (capturing, Raised (HarmonyError e))
    | None =>
        if str_in end_tool_chunk chunk then
          (closed d,
           Returned
             (Some {| content := None;
                      tool_calls :=
                        Some [{| name := function_name_buffer self;
                                 arguments := join grown |}];
                      reasoning_content := None |}, true))
        else
          (capturing,
           Returned
             (Some {| content := None; tool_calls := None;
                      reasoning_content := None |}, false))
    end.
Proof.
  intros Hs E R grown capturing. subst grown capturing.
  assert (Hne : state self <> END_STREAM) by (rewrite Hs; discriminate).
  rewrite (parse_streaming_unfold _ _ Hne),
    (process_chunk_spec _ _ _ _ _ _ E R).
  unfold after_loop, loop_locals, captured, surfaced, deltas, closed.
  rewrite Hs.
  assert (S : match visible trace with
              | [] => FOUND_ARGUMENTS
              | _ :: _ => FOUND_ARGUMENTS
              end = FOUND_ARGUMENTS) by now destruct (visible trace).
  rewrite S. destruct err as [e|]; [reflexivity|].
  destruct (str_in end_tool_chunk chunk); reflexivity.
Qed.

(** C8.  A [parse_streaming] call on an instance that is not in
    [END_STREAM], with a chunk that does not contain the end marker:
    whenever it returns, the flag is [False] and the result has
    [tool_calls] equal to [None]; it returns exactly when the engine
    accepts the chunk, and then [content] and [reasoning_content] are the
    joined final-channel and analysis-channel deltas this call surfaced
    ([None] when there are none). *)
Theorem nonterminal_return (self : HarmonyParser) (chunk : string) :
  state self <> END_STREAM ->
  str_in end_tool_chunk chunk = false ->
  (forall res flag,
      snd (parse_streaming chunk self) = Returned (res, flag) ->
      flag = false /\ exists r, res = Some r /\ tool_calls r = None) /\
  (forall e, encode chunk = Raised e ->
             snd (parse_streaming chunk self) = Raised (HarmonyError e)) /\
  (forall toks d trace err,
      encode chunk = Returned toks ->
      run_decoder (parser self) toks = (d, trace, err) ->
      snd (parse_streaming chunk self) =
        match err with
        | Some e => Raised (HarmonyError e)
        | None =>
            Returned
              (Some
                 {| content :=
                      or_None
                        (join (map delta
                                 (filter (on_channel ChannelType.FINAL)
                                    (surfaced (state self) trace))));
                    tool_calls := None;
                    reasoning_content :=
                      or_None
                        (join (map delta
                                 (filter (on_channel ChannelType.ANALYSIS)
                                    (surfaced (state self) trace)))) |},
               false)
        end).
Proof.
  intros Hs Hm. rewrite (parse_streaming_unfold _ _ Hs).
  unfold effective_chunk. rewrite Hm. split; [|split].
  - intros res flag.
    destruct (process_chunk chunk self) as [mid [loc|e]]; simpl;
      [|discriminate].
    intros H. injection H as <- <-. split; [reflexivity|].
    eexists; split; reflexivity.
  - intros e E. now rewrite (process_chunk_encode_error _ _ _ E).
  - intros toks d trace err E R.
    rewrite (process_chunk_spec _ _ _ _ _ _ E R).
    now destruct err.
Qed.

(** C9.  An instance that is still in [NORMAL] receives a chunk that
    contains the end marker, and no delta of the (truncated) chunk is
    classified as a tool call: the call returns flag [True] and
    [tool_calls] with the single entry [{name: "", arguments: ""}], and
    the instance is left in [END_STREAM]. *)
Theorem marker_without_tool_call (self : HarmonyParser) (chunk : string)
    (toks : list token) (d : decoder) (trace : list StreamText) :
  reachable self ->
  state self = NORMAL ->
  str_in end_tool_chunk chunk = true ->
  encode (truncate chunk) = Returned toks ->
  run_decoder (parser self) toks = (d, trace, None) ->
  existsb tool_delta (visible trace) = false ->
  exists r : ParseResult,
    parse_streaming chunk self = (closed d, Returned (Some r, true)) /\
    tool_calls r = Some [{| name := ""; arguments := "" |}] /\
    state (fst (parse_streaming chunk self)) = END_STREAM.
Proof.
  intros Hr Hs Hm E R Hno.
  destruct (reachable_invariant _ Hr) as (Hn & Ha & _).
  assert (Hne : state self <> END_STREAM) by (rewrite Hs; discriminate).
  rewrite (parse_streaming_unfold _ _ Hne). unfold effective_chunk.
  rewrite Hm, (process_chunk_spec _ _ _ _ _ _ E R).
  eexists. split; [reflexivity|]. split; [|reflexivity].
  cbv beta iota.
  unfold _build_result, after_loop, captured. rewrite Hs.
  destruct (no_tool_delta _ Hno) as [_ ->].
  cbn [tool_calls function_name_buffer arguments_buffer map].
  rewrite (Ha Hs).
  destruct (string_dec (function_name_buffer self) "") as [->|N];
    [reflexivity|].
  specialize (Hn N). congruence.
Qed.

Lemma emission_of_parse_streaming (chunk : string) (self : HarmonyParser) :
  emitted (snd (parse_streaming chunk self)) <> [] ->
  (state self <> END_STREAM /\ str_in end_tool_chunk chunk = true) /\
  (exists tc r,
      emitted (snd (parse_streaming chunk self)) = [tc] /\
      snd (parse_streaming chunk self) = Returned (Some r, true)) /\
  state (fst (parse_streaming chunk self)) = END_STREAM /\
  arguments_buffer (fst (parse_streaming chunk self)) = [] /\
  function_name_buffer (fst (parse_streaming chunk self)) = "".
Proof.
  destruct (ToolParserState_eqb (state self) END_STREAM) eqn:B.
  - rewrite parse_streaming_finished by now destruct (state self).
    intros H. now elim H.
  - assert (Hs : state self <> END_STREAM)
      by (intros E; rewrite E in B; discriminate).
    rewrite (parse_streaming_unfold _ _ Hs).
    destruct (process_chunk _ self) as [mid [loc|e]];
      [|intros H; now elim H].
    destruct (str_in end_tool_chunk chunk); [|intros H; now elim H].
    intros _. repeat split; try assumption.
    do 2 eexists. split; reflexivity.
Qed.

Lemma emission_of_call (c : call) (self : HarmonyParser) :
  emitted (snd (run_call c self)) <> [] ->
  match c with
  | Streaming chunk =>
      state self <> END_STREAM /\ str_in end_tool_chunk chunk = true
  | StreamEnd => state self = FOUND_ARGUMENTS
  end /\
  (exists tc r,
      emitted (snd (run_call c self)) = [tc] /\
      snd (run_call c self) = Returned (Some r, true)) /\
  state (fst (run_call c self)) = END_STREAM /\
  arguments_buffer (fst (run_call c self)) = [] /\
  function_name_buffer (fst (run_call c self)) = "".
Proof.
  destruct c as [chunk|]; cbn [run_call].
  - apply emission_of_parse_streaming.
  - destruct (ToolParserState_eqb (state self) FOUND_ARGUMENTS) eqn:B.
    + assert (Hs : state self = FOUND_ARGUMENTS) by now destruct (state self).
      rewrite (handle_end_flushes self Hs).
      intros H. split; [exact Hs|].
      now apply emission_of_parse_streaming.
    + assert (Hs : state self <> FOUND_ARGUMENTS)
        by (intros E; rewrite E in B; discriminate).
      rewrite (handle_end_idle self Hs).
      intros H. now elim H.
Qed.

Lemma finished_session_silent (calls : list call) :
  forall self : HarmonyParser,
    state self = END_STREAM ->
    emitted_in_session (snd (run_session calls self)) = [].
Proof.
  induction calls as [|c calls IH]; intros self Hs; [reflexivity|].
  cbn [run_session].
  assert (H : exists flag, run_call c self = (self, Returned (None, flag))).
  { destruct c as [chunk|]; cbn [run_call].
    - exists true. now apply parse_streaming_finished.
    - exists false. apply handle_end_idle.
      rewrite Hs. discriminate. }
  destruct H as [flag ->]. specialize (IH self Hs).
  destruct (run_session calls self) as [self' os]. exact IH.
Qed.

(** C1.  (a) A [parse_streaming] call on an instance not in
    [END_STREAM], with the end marker in its chunk and a loop that runs to
    its end, returns flag [True] and [tool_calls] with exactly one entry,
    made of the function name and the joined argument buffer as the loop
    left them; the buffers are then empty and the state is [END_STREAM].
    (b) A call emits [tool_calls] entries only in that situation or at the
    forced flush, emits exactly one, with flag [True], and leaves the
    instance in [END_STREAM] with empty buffers.  (c) Over any sequence of
    [parse_streaming] and [handle_parse_streaming_end] calls on one
    instance, started in any state, at most one entry is emitted in
    total. *)
Theorem single_tool_call_per_stream :
  (forall (self : HarmonyParser) (chunk : string) (mid : HarmonyParser)
          (loc : locals),
      state self <> END_STREAM ->
      str_in end_tool_chunk chunk = true ->
      process_chunk (truncate chunk) self = (mid, Returned loc) ->
      parse_streaming chunk self =
        ({| parser := parser mid; state := END_STREAM;
            arguments_buffer := []; function_name_buffer := "" |},
         Returned
           (Some {| content := or_None (join (contents loc));
                    tool_calls :=
                      Some [{| name := function_name_buffer mid;
                               arguments := join (arguments_buffer mid) |}];
                    reasoning_content :=
                      or_None (join (reasoning_contents loc)) |},
            true))) /\
  (forall (c : call) (self : HarmonyParser),
      emitted (snd (run_call c self)) <> [] ->
      match c with
      | Streaming chunk =>
          state self <> END_STREAM /\ str_in end_tool_chunk chunk = true
      | StreamEnd => state self = FOUND_ARGUMENTS
      end /\
      (exists tc r,
          emitted (snd (run_call c self)) = [tc] /\
          snd (run_call c self) = Returned (Some r, true)) /\
      state (fst (run_call c self)) = END_STREAM /\
      arguments_buffer (fst (run_call c self)) = [] /\
      function_name_buffer (fst (run_call c self)) = "") /\
  (forall (calls : list call) (self : HarmonyParser),
      List.length (emitted_in_session (snd (run_session calls self))) <= 1).
Proof.
  split; [|split].
  - intros self chunk mid loc Hs Hm P.
    rewrite (parse_streaming_unfold _ _ Hs). unfold effective_chunk.
    now rewrite Hm, P.
  - exact emission_of_call.
  - induction calls as [|c calls IH]; intros self; [simpl; lia|].
    cbn [run_session].
    pose proof (emission_of_call c self) as Hc.
    destruct (run_call c self) as [self' o]. cbn [fst snd] in Hc.
    specialize (IH self').
    pose proof (finished_session_silent calls self') as Hq.
    destruct (run_session calls self') as [self'' os].
    cbn [snd] in *. unfold emitted_in_session in *. cbn [flat_map].
    rewrite length_app.
    destruct (emitted o) as [|tc l] eqn:Em; [simpl; lia|].
    destruct Hc as (_ & (tc' & r & E1 & _) & Hend & _); [discriminate|].
    rewrite (Hq Hend). injection E1 as -> ->. simpl. lia.
Qed.

(** C6 (amended).  Between calls, after any sequence of [parse_streaming]
    and [handle_parse_streaming_end] calls on a fresh instance: a
    non-empty function name implies the state [FOUND_ARGUMENTS]; the
    argument buffer is empty in [NORMAL]; and in [END_STREAM] both the
    argument buffer and the function name are empty. *)
Theorem stream_attributes_invariant (self : HarmonyParser) :
  reachable self ->
  (function_name_buffer self <> "" -> state self = FOUND_ARGUMENTS) /\
  (state self = NORMAL -> arguments_buffer self = []) /\
  (state self = END_STREAM ->
   arguments_buffer self = [] /\ function_name_buffer self = "").
Proof. exact (reachable_invariant self). Qed.

End Streaming.

(** ** Truncation at the end marker, and the one-shot classifier *)

Section OneShot.
Context {engine : HarmonyEngine}.

Lemma parse_streaming_by_chunk (a b : string) (self : HarmonyParser) :
  str_in end_tool_chunk a = str_in end_tool_chunk b ->
  effective_chunk a = effective_chunk b ->
  parse_streaming a self = parse_streaming b self.
Proof.
  intros Hm He. unfold parse_streaming. cbv zeta.
  fold (effective_chunk a). fold (effective_chunk b).
  now rewrite Hm, He.
Qed.

Lemma parse_by_text (a b : string) (self : HarmonyParser) :
  effective_chunk a = effective_chunk b -> parse a self = parse b self.
Proof.
  intros He. unfold parse. cbv zeta.
  fold (effective_chunk a). fold (effective_chunk b). now rewrite He.
Qed.

(** C2.  A text or chunk [C] in which the end marker occurs splits as
    [pre ++ marker ++ post] at the marker's leftmost occurrence, and both
    [parse] and [parse_streaming] do on [C] exactly what they do on
    [pre ++ marker]: same outcome, same instance afterwards.  Nothing of
    [post] is tokenized, classified, buffered or returned. *)
Theorem marker_truncation (C p q : string) (self : HarmonyParser) :
  C = p ++ end_tool_chunk ++ q ->
  exists pre post : string,
    C = pre ++ end_tool_chunk ++ post /\
    (forall p' q', C = p' ++ end_tool_chunk ++ q' ->
                   length pre <= length p') /\
    parse C self = parse (pre ++ end_tool_chunk) self /\
    parse_streaming C self = parse_streaming (pre ++ end_tool_chunk) self.
Proof.
  intros E.
  assert (Hin : str_in end_tool_chunk C = true)
    by (rewrite E; apply str_in_occurrence).
  destruct (cut_leftmost _ _ Hin) as (pre & post & E' & Hmin & Hcut).
  exists pre, post. split; [exact E'|]. split; [exact Hmin|].
  assert (Hin' : str_in end_tool_chunk (pre ++ end_tool_chunk) = true).
  { rewrite <- (append_empty_r end_tool_chunk) at 2.
    apply str_in_occurrence. }
  assert (He : effective_chunk C = effective_chunk (pre ++ end_tool_chunk)).
  { unfold effective_chunk, truncate. rewrite Hin, Hin', Hcut.
    symmetry. exact (cut_of_cut _ _ _ _ E' Hmin). }
  split.
  - now apply parse_by_text.
  - apply parse_streaming_by_chunk; [now rewrite Hin, Hin' | exact He].
Qed.

Lemma parse_messages_entries (msgs : list Message) :
  forall (result : ParseResult) (self : HarmonyParser)
         (l0 : list ToolCall) (r : ParseResult),
    tool_calls result = Some l0 ->
    snd (parse_messages msgs result self) = Returned r ->
    exists l, tool_calls r = Some (l0 ++ l)%list /\
              Forall2 entry_of (filter tool_message msgs) l.
Proof.
  induction msgs as [|m msgs IH]; intros result self l0 r H0 H.
  - simpl in H. injection H as <-. exists []. rewrite app_nil_r.
    split; [exact H0 | constructor].
  - cbn [parse_messages filter] in *. unfold bind in H.
    unfold parse_message in H. fold (tool_message m) in H.
    destruct (tool_message m) eqn:T.
    + unfold bind, first_text in H.
      destruct (msg_content m) as [|c rest] eqn:Cm; [discriminate|].
      unfold tool_calls_append in H. rewrite H0 in H.
      unfold ret in H. cbv beta iota in H.
      eapply IH in H; [|reflexivity]. destruct H as (l & Hl & Hf).
      exists ({| name := replace "functions." "" (or_empty (msg_recipient m));
                 arguments := text c |} :: l).
      rewrite <- app_assoc in Hl. split; [exact Hl|].
      constructor; [|exact Hf]. split; [reflexivity|].
      exists c, rest. now split.
    + repeat match type of H with
             | context [if ?b then _ else _] => destruct b
             end;
        unfold bind, first_text in H;
        try (destruct (msg_content m) as [|c rest]; [discriminate|]);
        unfold ret in H; cbv beta iota in H;
        (eapply IH; [|exact H]); exact H0.
Qed.

Lemma parse_messages_returns (msgs : list Message) :
  forall (result : ParseResult) (self : HarmonyParser) (l0 : list ToolCall),
    tool_calls result = Some l0 ->
    (forall m, In m msgs -> msg_content m <> []) ->
    exists r, snd (parse_messages msgs result self) = Returned r.
Proof.
  induction msgs as [|m msgs IH]; intros result self l0 H0 Hc.
  - now exists result.
  - cbn [parse_messages]. unfold bind, parse_message.
    assert (Hm : msg_content m <> []) by (apply Hc; now left).
    assert (Hrest : forall m', In m' msgs -> msg_content m' <> [])
      by (intros m' Hin; apply Hc; now right).
    destruct (msg_content m) as [|c rest] eqn:Cm; [now elim Hm|].
    repeat match goal with
           | |- context [if ?b then _ else _] => destruct b
           end;
      unfold bind, first_text; rewrite ?Cm; unfold ret, tool_calls_append;
      rewrite ?H0; try (eapply IH; [|exact Hrest]; try exact H0; reflexivity).
Qed.

(** C5 (amended).  In [parse], the messages that contribute to
    [tool_calls] are exactly those with a non-empty recipient and either
    the commentary channel or a recipient containing ["functions."].
    Each contributes one entry, in message order: its name is the
    recipient with every occurrence of ["functions."] removed, its
    arguments are the text of the message's first content block.  A
    message whose recipient is absent or empty contributes no entry,
    whatever its channel.  [parse] returns when the engine accepts the
    text and every message has a content block. *)
Theorem parse_tool_calls (input : string) (self : HarmonyParser)
    (toks : list token) (msgs : list Message) :
  encode (effective_chunk input) = Returned toks ->
  parse_messages_from_completion_tokens toks = Returned msgs ->
  (forall r, snd (parse input self) = Returned r ->
             exists l, tool_calls r = Some l /\
                       Forall2 entry_of (filter tool_message msgs) l) /\
  (forall m, tool_message m = true <->
             or_empty (msg_recipient m) <> "" /\
             (msg_channel m = Some ChannelType.COMMENTARY \/
              str_in "functions." (or_empty (msg_recipient m)) = true)) /\
  ((forall m, In m msgs -> msg_content m <> []) ->
   exists r, snd (parse input self) = Returned r).
Proof.
  intros E P.
  assert (Hp : parse input self
               = parse_messages msgs
                   {| content := None; tool_calls := Some [];
                      reasoning_content := None |} self).
  { unfold parse. cbv zeta. fold (effective_chunk input).
    unfold bind, lift_engine. now rewrite E, P. }
  rewrite Hp. split; [|split].
  - intros r H.
    eapply parse_messages_entries in H; [|reflexivity].
    destruct H as (l & Hl & Hf). now exists l.
  - intros m. unfold tool_message, is_tool_call.
    destruct (or_empty (msg_recipient m)) as [|a s] eqn:R.
    + rewrite andb_false_r. split; [discriminate|]. intros [N _]. now elim N.
    + cbn [nonempty]. rewrite andb_true_r, andb_true_l. split.
      * intros H. split; [discriminate|].
        apply orb_true_iff in H. destruct H as [H|H]; [left|now right].
        destruct (msg_channel m) as [ch|]; [|discriminate].
        simpl in H. apply String.eqb_eq in H. now subst.
      * intros [_ [H|H]]; apply orb_true_iff; [left|now right].
        rewrite H. reflexivity.
  - intros Hc. eapply parse_messages_returns; [reflexivity | exact Hc].
Qed.

End OneShot.

(** ** The statements on the reference engine *)

Section Examples.
Import Toy.

(** The four-chunk tool call: three partial results, then the call. *)
Example weather_session_outcomes :
  snd (run_session weather_session init)
  = [ Returned (Some {| content := None; tool_calls := None;
                        reasoning_content := None |}, false);
      Returned (Some {| content := None; tool_calls := None;
                        reasoning_content := None |}, false);
      Returned (Some {| content := None; tool_calls := None;
                        reasoning_content := None |}, false);
      Returned (Some {| content := None;
                        tool_calls :=
                          Some [{| name := "get_weather";
                                   arguments := "{city:NYC}" |}];
                        reasoning_content := None |}, true) ].
Proof. vm_compute. reflexivity. Qed.

Lemma single_tool_call_per_stream_witness :
  parse_streaming "<|call|>" mid_call
  = (finished,
     Returned
       (Some {| content := None;
                tool_calls :=
                  Some [{| name := "get_weather";
                           arguments := "{city:NYC}" |}];
                reasoning_content := None |}, true)) /\
  List.length (emitted_in_session (snd (run_session weather_session init)))
  <= 1.
Proof.
  split.
  - apply (proj1 (@single_tool_call_per_stream engine) mid_call "<|call|>"
             (fst (process_chunk "<|call|>" mid_call)) no_locals).
    + vm_compute. discriminate.
    + reflexivity.
    + reflexivity.
  - apply (proj2 (proj2 (@single_tool_call_per_stream engine))).
Defined.

Lemma marker_truncation_witness :
  call_text
  = "<|channel|>commentary to=functions.get_weather<|message|>{}"
    ++ end_tool_chunk ++ "junk<|call|>" /\
  exists pre post : string,
    call_text = pre ++ end_tool_chunk ++ post /\
    (forall p' q', call_text = p' ++ end_tool_chunk ++ q' ->
                   length pre <= length p') /\
    parse call_text init = parse (pre ++ end_tool_chunk) init /\
    parse_streaming call_text init
    = parse_streaming (pre ++ end_tool_chunk) init.
Proof.
  split; [reflexivity|].
  apply (marker_truncation call_text
           "<|channel|>commentary to=functions.get_weather<|message|>{}"
           "junk<|call|>" init).
  reflexivity.
Defined.

Lemma finished_is_absorbing_witness :
  state finished = END_STREAM /\
  parse_streaming "more" finished = (finished, Returned (None, true)) /\
  run_session (map Streaming ["a"; "<|call|>"]) finished
  = (finished, [Returned (None, true); Returned (None, true)]).
Proof.
  split; [reflexivity|].
  destruct (finished_is_absorbing finished eq_refl) as [H1 H2].
  split; [apply H1 | apply (H2 ["a"; "<|call|>"])].
Defined.

Lemma capturing_takes_every_delta_witness :
  state mid_call = FOUND_ARGUMENTS /\
  encode (effective_chunk switch_chunk) = Returned (tokenize 0 switch_chunk) /\
  map current_channel (visible (snd (fst (decoded mid_call switch_chunk))))
  = [Some "final"; Some "final"] /\
  arguments_buffer (fst (parse_streaming switch_chunk mid_call))
  = ["{"; "c"; "i"; "t"; "y"; ":"; "N"; "Y"; "C"; "}"; "h"; "i"] /\
  snd (parse_streaming switch_chunk mid_call)
  = Returned (Some {| content := None; tool_calls := None;
                      reasoning_content := None |}, false).
Proof.
  split; [reflexivity|]. split; [reflexivity|]. split; [reflexivity|].
  rewrite (capturing_takes_every_delta mid_call switch_chunk
             (tokenize 0 switch_chunk)
             (fst (fst (decoded mid_call switch_chunk)))
             (snd (fst (decoded mid_call switch_chunk)))
             (snd (decoded mid_call switch_chunk))
             eq_refl eq_refl eq_refl).
  split; reflexivity.
Defined.

(** C6, as stated, fails: after a commentary message without recipient
    has started, the instance is capturing arguments under an empty
    function name. *)
Lemma capturing_with_empty_name :
  reachable preamble /\
  state preamble = FOUND_ARGUMENTS /\
  function_name_buffer preamble = "" /\
  ~ (function_name_buffer preamble <> "" <->
     state preamble = FOUND_ARGUMENTS).
Proof.
  split; [exists [Streaming preamble_chunk]; reflexivity|].
  split; [reflexivity|]. split; [reflexivity|].
  intros [_ H]. apply (H eq_refl). reflexivity.
Qed.

Lemma stream_attributes_invariant_witness :
  reachable mid_call /\
  (function_name_buffer mid_call <> "" -> state mid_call = FOUND_ARGUMENTS) /\
  (state mid_call = NORMAL -> arguments_buffer mid_call = []) /\
  (state mid_call = END_STREAM ->
   arguments_buffer mid_call = [] /\ function_name_buffer mid_call = "").
Proof.
  assert (R : reachable mid_call)
    by (exists (firstn 3 weather_session); unfold mid_call; reflexivity).
  split; [exact R|]. exact (stream_attributes_invariant mid_call R).
Defined.

Lemma flush_at_stream_end_witness :
  state mid_call = FOUND_ARGUMENTS /\
  handle_parse_streaming_end mid_call
  = (finished,
     Returned
       (Some {| content := None;
                tool_calls :=
                  Some [{| name := "get_weather";
                           arguments := "{city:NYC}" |}];
                reasoning_content := None |}, true)) /\
  handle_parse_streaming_end mid_call = parse_streaming "<|call|>" mid_call /\
  state finished <> FOUND_ARGUMENTS /\
  handle_parse_streaming_end finished = (finished, Returned (None, false)).
Proof.
  split; [reflexivity|].
  destruct (proj1 (flush_at_stream_end mid_call) eq_refl) as (H1 & _ & H3).
  split.
  - exact (H3 (tokenize 0 end_tool_chunk)
             (fst (fst (decoded mid_call end_tool_chunk)))
             (snd (fst (decoded mid_call end_tool_chunk)))
             (snd (decoded mid_call end_tool_chunk)) eq_refl eq_refl).
  - split; [exact H1|].
    assert (N : state finished <> FOUND_ARGUMENTS) by (vm_compute; discriminate).
    split; [exact N|]. exact (proj2 (flush_at_stream_end finished) N).
Defined.

Lemma nonterminal_return_witness :
  state init <> END_STREAM /\
  str_in end_tool_chunk plain_chunk = false /\
  snd (parse_streaming plain_chunk init)
  = Returned (Some {| content := Some "ok"; tool_calls := None;
                      reasoning_content := Some "hm" |}, false).
Proof.
  assert (N : state (engine := engine) init <> END_STREAM)
    by (vm_compute; discriminate).
  split; [exact N|]. split; [reflexivity|].
  exact (proj2 (proj2 (nonterminal_return init plain_chunk N eq_refl))
           (tokenize 0 plain_chunk)
           (fst (fst (decoded init plain_chunk)))
           (snd (fst (decoded init plain_chunk)))
           (snd (decoded init plain_chunk)) eq_refl eq_refl).
Defined.

Lemma marker_without_tool_call_witness :
  reachable init /\
  state init = NORMAL /\
  str_in end_tool_chunk stray_marker_chunk = true /\
  existsb tool_delta
    (visible (snd (fst (decoded init (truncate stray_marker_chunk))))) = false /\
  exists r : ParseResult,
    parse_streaming stray_marker_chunk init
    = (closed (fst (fst (decoded init (truncate stray_marker_chunk)))),
       Returned (Some r, true)) /\
    tool_calls r = Some [{| name := ""; arguments := "" |}] /\
    state (fst (parse_streaming stray_marker_chunk init)) = END_STREAM.
Proof.
  assert (R : reachable (engine := engine) init) by (exists []; reflexivity).
  split; [exact R|]. split; [reflexivity|]. split; [reflexivity|].
  split; [reflexivity|].
  exact (marker_without_tool_call init stray_marker_chunk
           (tokenize 0 (truncate stray_marker_chunk))
           (fst (fst (decoded init (truncate stray_marker_chunk))))
           (snd (fst (decoded init (truncate stray_marker_chunk))))
           R eq_refl eq_refl eq_refl eq_refl eq_refl).
Defined.

(** C5, as stated, fails: a commentary message without recipient is
    decoded, and [parse] returns an empty [tool_calls]. *)
Lemma commentary_without_recipient_dropped :
  parse_messages_from_completion_tokens (tokenize 0 preamble_text)
  = Returned [preamble_message] /\
  msg_channel preamble_message = Some ChannelType.COMMENTARY /\
  snd (parse preamble_text init)
  = Returned {| content := None; tool_calls := Some [];
                reasoning_content := None |} /\
  ~ (exists r tc l,
        snd (parse preamble_text init) = Returned r /\
        tool_calls r = Some l /\ In tc l).
Proof.
  split; [reflexivity|]. split; [reflexivity|]. split; [reflexivity|].
  intros (r & tc & l & Hr & Hl & Hin).
  vm_compute in Hr. injection Hr as <-. simpl in Hl.
  injection Hl as <-. exact Hin.
Qed.

Lemma parse_tool_calls_witness :
  encode (effective_chunk call_text)
  = Returned (tokenize 0 (truncate call_text)) /\
  parse_messages_from_completion_tokens (tokenize 0 (truncate call_text))
  = Returned [call_message] /\
  snd (parse call_text init)
  = Returned {| content := None;
                tool_calls := Some [{| name := "get_weather";
                                       arguments := "{}" |}];
                reasoning_content := None |} /\
  exists l, Forall2 entry_of (filter tool_message [call_message]) l /\
            l = [{| name := "get_weather"; arguments := "{}" |}].
Proof.
  assert (E : encode (effective_chunk call_text)
              = Returned (tokenize 0 (truncate call_text)))
    by (vm_compute; reflexivity).
  assert (P : parse_messages_from_completion_tokens
                (tokenize 0 (truncate call_text))
              = Returned [call_message])
    by (vm_compute; reflexivity).
  assert (R : snd (parse call_text init)
              = Returned {| content := None;
                            tool_calls := Some [{| name := "get_weather";
                                                   arguments := "{}" |}];
                            reasoning_content := None |})
    by (vm_compute; reflexivity).
  split; [exact E|]. split; [exact P|]. split; [exact R|].
  destruct (@parse_tool_calls engine call_text init
              (tokenize 0 (truncate call_text)) [call_message] E P)
    as (H & _ & _).
  destruct (H _ R) as (l & Hl & Hf).
  exists l. split; [exact Hf|]. cbn [tool_calls] in Hl.
  injection Hl as <-. reflexivity.
Defined.

End Examples.

(** ** Further properties of the streaming interface *)

Section StreamingExtras.
Context {engine : HarmonyEngine}.

Lemma or_None_not_empty (s : string) : or_None s <> Some "".
Proof. destruct s; unfold or_None; simpl; congruence. Qed.

Lemma after_loop_rank (self : HarmonyParser) (d : decoder)
    (trace : list StreamText) :
  rank (state self) <= rank (state (after_loop self d trace)) \/
  state self = END_STREAM.
Proof.
  unfold after_loop. cbn [state].
  destruct (captured (state self) trace); [left; lia|].
  destruct (state self); simpl; [left; lia | left; lia | now right].
Qed.

Lemma run_call_steps (c : call) (self : HarmonyParser) :
  fst (run_call c self) = self \/
  (state self <> END_STREAM /\
   exists d trace,
     fst (run_call c self) = after_loop self d trace \/
     fst (run_call c self) = closed d).
Proof.
  destruct c as [chunk|]; cbn [run_call].
  - apply parse_streaming_steps.
  - destruct (ToolParserState_eqb (state self) FOUND_ARGUMENTS) eqn:B.
    + rewrite handle_end_flushes by now destruct (state self).
      apply parse_streaming_steps.
    + rewrite handle_end_idle; [now left|].
      intros E. rewrite E in B. discriminate.
Qed.

(** X1.  No call takes an instance back: the state after a
    [parse_streaming] or [handle_parse_streaming_end] call, returning or
    raising, is the state before it or a later one in the order [NORMAL],
    [FOUND_ARGUMENTS], [END_STREAM]; the same holds over any sequence of
    calls.  In particular an instance never returns to [NORMAL]. *)
Theorem state_never_regresses :
  (forall (c : call) (self : HarmonyParser),
      rank (state self) <= rank (state (fst (run_call c self)))) /\
  (forall (calls : list call) (self : HarmonyParser),
      rank (state self) <= rank (state (fst (run_session calls self)))).
Proof.
  assert (H1 : forall (c : call) (self : HarmonyParser),
             rank (state self) <= rank (state (fst (run_call c self)))).
  { intros c self.
    destruct (run_call_steps c self) as [-> | (Hs & d & trace & [-> | ->])].
    - lia.
    - destruct (after_loop_rank self d trace) as [H|H]; [exact H | now elim Hs].
    - simpl. destruct (state self); simpl; lia. }
  split; [exact H1|].
  induction calls as [|c calls IH]; intros self; [simpl; lia|].
  cbn [run_session]. specialize (H1 c self).
  destruct (run_call c self) as [self' o]. cbn [fst] in H1.
  specialize (IH self'). destruct (run_session calls self') as [self'' os].
  cbn [fst] in *. lia.
Qed.


(** X3.  When the decoder rejects a token of the chunk, [parse_streaming]
    raises that error and the stream stays open even if the chunk held the
    end marker: the state is not [END_STREAM], nothing is emitted, and the
    deltas captured before the failure stay in the argument buffer.  When
    the tokenizer rejects the chunk the instance is not changed at all. *)
Theorem decoder_failure_keeps_stream_open (self : HarmonyParser)
    (chunk : string) :
  state self <> END_STREAM ->
  (forall toks d trace e,
      encode (effective_chunk chunk) = Returned toks ->
      run_decoder (parser self) toks = (d, trace, Some e) ->
      snd (parse_streaming chunk self) = Raised (HarmonyError e) /\
      state (fst (parse_streaming chunk self)) <> END_STREAM /\
      parser (fst (parse_streaming chunk self)) = d /\
      arguments_buffer (fst (parse_streaming chunk self))
      = (arguments_buffer self
         ++ map delta (captured (state self) trace))%list) /\
  (forall e,
      encode (effective_chunk chunk) = Raised e ->
      parse_streaming chunk self = (self, Raised (HarmonyError e))).
Proof.
  intros Hs. rewrite (parse_streaming_unfold _ _ Hs). split.
  - intros toks d trace e E R. rewrite (process_chunk_spec _ _ _ _ _ _ E R).
    cbn [fst snd]. split; [reflexivity|]. split; [|now split].
    unfold after_loop. cbn [state].
    destruct (captured (state self) trace); [exact Hs | discriminate].
  - intros e E. now rewrite (process_chunk_encode_error _ _ _ E).
Qed.

(** X4.  The shape of what [parse_streaming] returns: either
    [(None, True)], and then the instance was already in [END_STREAM]; or a
    result whose [content] and [reasoning_content] are [None] or a
    non-empty string, with flag [False] and [tool_calls] [None], or with
    flag [True] and exactly one tool call. *)
Theorem streaming_result_shape (self : HarmonyParser) (chunk : string)
    (res : option ParseResult) (flag : bool) :
  snd (parse_streaming chunk self) = Returned (res, flag) ->
  (res = None /\ flag = true /\ state self = END_STREAM) \/
  (exists r, res = Some r /\
             content r <> Some "" /\ reasoning_content r <> Some "" /\
             ((flag = false /\ tool_calls r = None) \/
              (flag = true /\ exists tc, tool_calls r = Some [tc]))).
Proof.
  destruct (ToolParserState_eqb (state self) END_STREAM) eqn:B.
  - assert (Hs : state self = END_STREAM) by now destruct (state self).
    rewrite (parse_streaming_finished _ _ Hs). intros H.
    injection H as <- <-. now left.
  - assert (Hs : state self <> END_STREAM)
      by (intros E; rewrite E in B; discriminate).
    rewrite (parse_streaming_unfold _ _ Hs).
    destruct (process_chunk _ self) as [mid [loc|e]]; [|discriminate].
    destruct (str_in end_tool_chunk chunk); intros H; injection H as <- <-;
      right; eexists; (split; [reflexivity|]);
      (split; [apply or_None_not_empty|]);
      (split; [apply or_None_not_empty|]).
    + right. split; [reflexivity|]. eexists. reflexivity.
    + left. now split.
Qed.

End StreamingExtras.

(** ** The start of a tool call, and chunk boundaries *)

Section Onset.
Context {engine : HarmonyEngine}.

Lemma split_at_tool (pre post : list StreamText) (st : StreamText) :
  existsb tool_delta pre = false -> tool_delta st = true ->
  before_tool (pre ++ st :: post) = pre /\
  from_tool (pre ++ st :: post) = st :: post.
Proof.
  intros Hp Hst. induction pre as [|x pre IH].
  - cbn [app before_tool from_tool]. now rewrite Hst.
  - cbn [existsb] in Hp. apply orb_false_iff in Hp. destruct Hp as [Hx Hp].
    cbn [app before_tool from_tool]. rewrite Hx.
    destruct (IH Hp) as [-> ->]. now split.
Qed.

Lemma replace_from_skip (old new p s : string) :
  replace_from old new (length p) (p ++ s) = replace_from old new 0 s.
Proof. induction p as [|c p IH]; [reflexivity | exact IH]. Qed.

Lemma replace_absent (old new s : string) :
  str_in old s = false -> replace_from old new 0 s = s.
Proof.
  induction s as [|c s IH]; [reflexivity|].
  cbn [str_in replace_from].
  destruct (prefix old (String c s)); [discriminate|].
  intros H. now rewrite (IH H).
Qed.

Lemma replace_leading (a : ascii) (old n : string) :
  str_in (String a old) n = false ->
  replace (String a old) "" (String a old ++ n) = n.
Proof.
  intros H. unfold replace.
  change (String a old ++ n) with (String a (old ++ n)).
  cbn [replace_from].
  change (String a (old ++ n)) with (String a old ++ n).
  rewrite prefix_append.
  replace (length (String a old) - 1) with (length old) by (simpl; lia).
  rewrite replace_from_skip. cbn [append]. now apply replace_absent.
Qed.

(** X5.  A call that starts in [NORMAL] and meets its first tool-call
    delta: the deltas before it are surfaced by channel, the state becomes
    [FOUND_ARGUMENTS], the function name is the recipient reported with
    that delta with ["functions."] removed, and that delta and every later
    non-empty delta of the chunk go to the argument buffer, whatever
    channel they are reported on. *)
Theorem tool_call_onset (self : HarmonyParser) (chunk : string)
    (toks : list token) (d : decoder) (trace pre post : list StreamText)
    (st : StreamText) :
  state self = NORMAL ->
  str_in end_tool_chunk chunk = false ->
  encode chunk = Returned toks ->
  run_decoder (parser self) toks = (d, trace, None) ->
  visible trace = (pre ++ st :: post)%list ->
  existsb tool_delta pre = false ->
  tool_delta st = true ->
  parse_streaming chunk self =
    ({| parser := d; state := FOUND_ARGUMENTS;
        arguments_buffer :=
          (arguments_buffer self ++ map delta (st :: post))%list;
        function_name_buffer :=
          replace "functions." "" (or_empty (current_recipient st)) |},
     Returned
       (Some {| content :=
                  or_None (join (map delta
                                   (filter (on_channel ChannelType.FINAL) pre)));
                tool_calls := None;
                reasoning_content :=
                  or_None (join (map delta
                                   (filter (on_channel ChannelType.ANALYSIS)
                                      pre))) |},
        false)).
Proof.
  intros Hs Hm E R V Hp Hst.
  assert (Hne : state self <> END_STREAM) by (rewrite Hs; discriminate).
  rewrite (parse_streaming_unfold _ _ Hne). unfold effective_chunk.
  rewrite Hm, (process_chunk_spec _ _ _ _ _ _ E R).
  unfold after_loop, loop_locals, captured, surfaced, _build_result.
  rewrite Hs, V. destruct (split_at_tool pre post st Hp Hst) as [-> ->].
  reflexivity.
Qed.

Lemma process_tokens_app (t1 : list token) :
  forall (t2 : list token) (loc : locals) (self : HarmonyParser),
    process_tokens (t1 ++ t2) loc self =
      match process_tokens t1 loc self with
      | (mid, Returned l) => process_tokens t2 l mid
      | (mid, Raised e) => (mid, Raised e)
      end.
Proof.
  induction t1 as [|t t1 IH]; intros t2 loc self; [reflexivity|].
  cbn [app process_tokens]. unfold bind.
  destruct (process_token loc t self) as [s' [l'|e]];
    [apply IH | reflexivity].
Qed.

Lemma process_tokens_locals (toks : list token) (loc : locals)
    (self : HarmonyParser) :
  process_tokens toks loc self =
    match process_tokens toks no_locals self with
    | (mid, Returned l) => (mid, Returned (locals_app loc l))
    | (mid, Raised e) => (mid, Raised e)
    end.
Proof.
  destruct (run_decoder (parser self) toks) as [[d trace] err] eqn:R.
  rewrite !(process_tokens_spec _ _ _ _ _ _ R). now destruct err.
Qed.

Lemma process_tokens_open (toks : list token) (loc : locals)
    (self : HarmonyParser) :
  state self <> END_STREAM ->
  state (fst (process_tokens toks loc self)) <> END_STREAM.
Proof.
  intros Hs.
  destruct (run_decoder (parser self) toks) as [[d trace] err] eqn:R.
  rewrite (process_tokens_spec _ _ _ _ _ _ R). unfold after_loop.
  cbn [fst state].
  destruct (captured (state self) trace); [exact Hs | discriminate].
Qed.

Lemma join_cons (x : string) (l : list string) : join (x :: l) = x ++ join l.
Proof.
  unfold join. destruct l; cbn [concat]; [now rewrite append_empty_r|].
  reflexivity.
Qed.

Lemma join_app (l1 l2 : list string) : join (l1 ++ l2) = join l1 ++ join l2.
Proof.
  induction l1 as [|x l1 IH]; [reflexivity|].
  cbn [app]. now rewrite !join_cons, IH, append_assoc.
Qed.

Lemma or_None_append (x y : string) :
  or_None (x ++ y) = merge (or_None x) (or_None y).
Proof.
  destruct x as [|a x]; [now destruct y|].
  destruct y as [|b y]; [now rewrite append_empty_r | reflexivity].
Qed.

Lemma build_combine (la lb : locals) (tc : option (list ToolCall)) :
  _build_result (reasoning_contents (locals_app la lb)) tc
    (contents (locals_app la lb))
  = combine (_build_result (reasoning_contents la) None (contents la))
      (_build_result (reasoning_contents lb) tc (contents lb)).
Proof.
  unfold _build_result, combine, locals_app. cbn.
  now rewrite !join_app, !or_None_append.
Qed.

Lemma process_chunk_tokens (chunk : string) (toks : list token)
    (self : HarmonyParser) :
  encode chunk = Returned toks ->
  process_chunk chunk self = process_tokens toks no_locals self.
Proof. intros E. unfold process_chunk, bind, lift_engine. now rewrite E. Qed.

(** X6.  Where a chunk is cut does not matter.  If the end marker is not
    in [a] and does not straddle the cut, and the tokens of the whole are
    the tokens of [a] followed by those of [b], then after a successful
    call on [a], calling [parse_streaming] on [b] leaves the instance as
    one call on [a ++ b] would, ends the same way, and the text fields of
    the one result are those of the two results put together. *)
Theorem chunk_split (self mid : HarmonyParser) (a b : string)
    (ta tb : list token) (ra : ParseResult) :
  str_in end_tool_chunk a = false ->
  str_in end_tool_chunk (a ++ b) = str_in end_tool_chunk b ->
  effective_chunk (a ++ b) = a ++ effective_chunk b ->
  encode a = Returned ta ->
  encode (effective_chunk b) = Returned tb ->
  encode (a ++ effective_chunk b) = Returned (ta ++ tb)%list ->
  parse_streaming a self = (mid, Returned (Some ra, false)) ->
  parse_streaming (a ++ b) self =
    match parse_streaming b mid with
    | (self', Returned (Some rb, flag)) =>
        (self', Returned (Some (combine ra rb), flag))
    | other => other
    end.
Proof.
  intros Ha Hab He Ea Eb Eab Pa.
  assert (Hs : state self <> END_STREAM).
  { intros F. rewrite (parse_streaming_finished _ _ F) in Pa. discriminate. }
  rewrite (parse_streaming_unfold _ _ Hs) in Pa.
  unfold effective_chunk in Pa at 1. rewrite Ha in Pa.
  rewrite (process_chunk_tokens _ _ _ Ea) in Pa.
  pose proof (process_tokens_open ta no_locals self Hs) as Hmid.
  destruct (process_tokens ta no_locals self) as [m [la|e]] eqn:Ta;
    [|discriminate].
  injection Pa as -> <-. cbn [fst] in Hmid.
  rewrite (parse_streaming_unfold _ _ Hs), He,
    (process_chunk_tokens _ _ _ Eab), process_tokens_app, Ta,
    process_tokens_locals, Hab.
  rewrite (parse_streaming_unfold _ _ Hmid), (process_chunk_tokens _ _ _ Eb).
  destruct (process_tokens tb no_locals mid) as [m2 [lb|e]]; [|reflexivity].
  destruct (str_in end_tool_chunk b); now rewrite build_combine.
Qed.

End Onset.

(** ** Further properties of the one-shot path *)

Section OneShotExtras.
Context {engine : HarmonyEngine}.

Lemma last_shift (A : Type) (l : list A) :
  forall a d : A, last (a :: l) d = last l a.
Proof.
  induction l as [|b l IH]; intros a d; [reflexivity|].
  change (last (a :: b :: l) d) with (last (b :: l) d).
  now rewrite !IH.
Qed.

Lemma texts_on_cons (c : string) (m : Message) (msgs : list Message) :
  texts_on c (m :: msgs)
  = ((if plain_on c m then
        match msg_content m with
        | t :: _ => [text t]
        | [] => []
        end
      else []) ++ texts_on c msgs)%list.
Proof. reflexivity. Qed.

Lemma parse_step (input : string) (self : HarmonyParser)
    (toks : list token) (msgs : list Message) :
  encode (effective_chunk input) = Returned toks ->
  parse_messages_from_completion_tokens toks = Returned msgs ->
  parse input self
  = parse_messages msgs
      {| content := None; tool_calls := Some [];
         reasoning_content := None |} self.
Proof.
  intros E P. unfold parse. cbv zeta. fold (effective_chunk input).
  unfold bind, lift_engine. now rewrite E, P.
Qed.

Lemma parse_messages_fields (msgs : list Message) :
  forall (result : ParseResult) (self : HarmonyParser) (r : ParseResult),
    snd (parse_messages msgs result self) = Returned r ->
    reasoning_content r
    = last (map Some (texts_on ChannelType.ANALYSIS msgs))
        (reasoning_content result) /\
    content r
    = last (map Some (texts_on ChannelType.FINAL msgs)) (content result).
Proof.
  induction msgs as [|m msgs IH]; intros result self r H.
  - simpl in H. injection H as <-. now split.
  - cbn [parse_messages] in H. unfold bind in H.
    unfold parse_message in H. fold (tool_message m) in H.
    rewrite !texts_on_cons. unfold plain_on.
    destruct (tool_message m) eqn:T.
    + unfold bind, first_text in H.
      destruct (msg_content m) as [|c rest]; [discriminate|].
      unfold tool_calls_append in H.
      destruct (tool_calls result); [|discriminate].
      unfold ret in H. cbv beta iota in H.
      apply IH in H. exact H.
    + cbn [negb andb].
      destruct (opt_eqb (msg_channel m) ChannelType.ANALYSIS) eqn:A.
      * rewrite (analysis_not_final _ A).
        unfold bind, first_text in H.
        destruct (msg_content m) as [|c rest]; [discriminate|].
        unfold ret in H. cbv beta iota in H. apply IH in H.
        cbn [reasoning_content content] in H.
        cbn [app map]. now rewrite last_shift.
      * destruct (opt_eqb (msg_channel m) ChannelType.FINAL) eqn:F.
        -- unfold bind, first_text in H.
           destruct (msg_content m) as [|c rest]; [discriminate|].
           unfold ret in H. cbv beta iota in H. apply IH in H.
           cbn [reasoning_content content] in H.
           cbn [app map]. now rewrite last_shift.
        -- unfold ret in H. cbv beta iota in H. now apply IH in H.
Qed.

(** X7.  In [parse] the last message wins: when [parse] returns,
    [reasoning_content] is the first-block text of the last analysis
    message that is not a tool call, and [content] that of the last such
    final message; each is [None] when there is no such message.  Earlier
    messages on the same channel are overwritten, not joined. *)
Theorem parse_last_message_wins (input : string) (self : HarmonyParser)
    (toks : list token) (msgs : list Message) (r : ParseResult) :
  encode (effective_chunk input) = Returned toks ->
  parse_messages_from_completion_tokens toks = Returned msgs ->
  snd (parse input self) = Returned r ->
  reasoning_content r
  = last (map Some (texts_on ChannelType.ANALYSIS msgs)) None /\
  content r = last (map Some (texts_on ChannelType.FINAL msgs)) None.
Proof.
  intros E P H. rewrite (parse_step _ _ _ _ E P) in H.
  now apply parse_messages_fields in H.
Qed.

Lemma parse_message_hollow (result : ParseResult) (m : Message)
    (self : HarmonyParser) :
  lacks_text m = true ->
  parse_message result m self = (self, Raised IndexError).
Proof.
  unfold lacks_text, needs_text. intros H.
  apply andb_true_iff in H. destruct H as [N C].
  destruct (msg_content m) as [|c rest] eqn:Cm; [|discriminate].
  unfold parse_message. fold (tool_message m).
  destruct (tool_message m);
    [|destruct (opt_eqb (msg_channel m) ChannelType.ANALYSIS);
      [|destruct (opt_eqb (msg_channel m) ChannelType.FINAL);
        [|discriminate]]];
    unfold bind, first_text; now rewrite Cm.
Qed.

Lemma parse_message_sound (result : ParseResult) (m : Message)
    (self : HarmonyParser) (l0 : list ToolCall) :
  tool_calls result = Some l0 ->
  lacks_text m = false ->
  exists result' l1,
    parse_message result m self = (self, Returned result') /\
    tool_calls result' = Some l1.
Proof.
  unfold lacks_text, needs_text. intros H0 H.
  unfold parse_message. fold (tool_message m).
  destruct (tool_message m);
    [|destruct (opt_eqb (msg_channel m) ChannelType.ANALYSIS);
      [|destruct (opt_eqb (msg_channel m) ChannelType.FINAL)]];
    cbn [orb andb] in H;
    try (destruct (msg_content m) as [|c rest] eqn:Cm; [discriminate|]);
    unfold bind, first_text; rewrite ?Cm; unfold ret, tool_calls_append;
    rewrite ?H0; do 2 eexists; (split; [reflexivity|]); cbn [tool_calls];
    try reflexivity; exact H0.
Qed.

Lemma parse_messages_outcome (msgs : list Message) :
  forall (result : ParseResult) (self : HarmonyParser) (l0 : list ToolCall),
    tool_calls result = Some l0 ->
    if existsb lacks_text msgs
    then parse_messages msgs result self = (self, Raised IndexError)
    else exists r, parse_messages msgs result self = (self, Returned r).
Proof.
  induction msgs as [|m msgs IH]; intros result self l0 H0.
  - cbn. now exists result.
  - cbn [existsb parse_messages]. unfold bind.
    destruct (lacks_text m) eqn:L.
    + cbn [orb]. now rewrite (parse_message_hollow _ _ _ L).
    + cbn [orb].
      destruct (parse_message_sound result m self l0 H0 L)
        as (result' & l1 & -> & H1).
      exact (IH result' self l1 H1).
Qed.

(** X8.  [parse] reads the first content block of every message it
    classifies (tool call, analysis or final).  If some such message has
    no content block, [parse] raises [IndexError] and returns nothing of
    the messages before it; otherwise it returns a result.  Messages it
    does not classify may be empty.  The instance is unchanged either
    way. *)
Theorem parse_needs_content_blocks (input : string) (self : HarmonyParser)
    (toks : list token) (msgs : list Message) :
  encode (effective_chunk input) = Returned toks ->
  parse_messages_from_completion_tokens toks = Returned msgs ->
  if existsb lacks_text msgs
  then parse input self = (self, Raised IndexError)
  else exists r, parse input self = (self, Returned r).
Proof.
  intros E P. rewrite (parse_step _ _ _ _ E P).
  now apply (parse_messages_outcome msgs _ self []).
Qed.

Lemma Forall2_pick (A B : Type) (R : A -> B -> Prop) (l1 : list A)
    (l2 : list B) (x : A) :
  Forall2 R l1 l2 -> In x l1 -> exists y, In y l2 /\ R x y.
Proof.
  induction 1 as [|a b l1 l2 Hab _ IH]; intros Hin; [contradiction|].
  destruct Hin as [->|Hin].
  - exists b. split; [now left | exact Hab].
  - destruct (IH Hin) as (y & Hy & Hr). exists y. split; [now right | exact Hr].
Qed.

(** X9.  A message addressed to ["functions." ++ n], where ["functions."]
    does not occur again in [n], gives a tool call named [n], on whatever
    channel the message is, also the analysis channel: when [parse]
    returns, [tool_calls] has an entry with name [n] and the text of the
    message's first content block as arguments. *)
Theorem parse_names_call_after_recipient (input : string)
    (self : HarmonyParser) (toks : list token) (msgs : list Message)
    (r : ParseResult) (m : Message) (n : string) :
  encode (effective_chunk input) = Returned toks ->
  parse_messages_from_completion_tokens toks = Returned msgs ->
  snd (parse input self) = Returned r ->
  In m msgs ->
  msg_recipient m = Some ("functions." ++ n) ->
  str_in "functions." n = false ->
  exists l tc c rest,
    tool_calls r = Some l /\ In tc l /\ name tc = n /\
    msg_content m = c :: rest /\ arguments tc = text c.
Proof.
  intros E P H Hin Hr Hn. rewrite (parse_step _ _ _ _ E P) in H.
  eapply parse_messages_entries in H; [|reflexivity].
  destruct H as (l & Hl & Hf).
  assert (T : tool_message m = true).
  { unfold tool_message, is_tool_call. rewrite Hr.
    change (or_empty (Some ("functions." ++ n))) with ("functions." ++ n).
    rewrite (str_in_here _ _ (prefix_append "functions." n)).
    cbn [append nonempty]. now rewrite orb_true_r. }
  assert (Hin' : In m (filter tool_message msgs))
    by (apply filter_In; now split).
  destruct (Forall2_pick _ _ _ _ _ _ Hf Hin') as (tc & Htc & Hname & c & rest & Hc & Ha).
  exists l, tc, c, rest. repeat split; try assumption.
  rewrite Hname, Hr.
  change (or_empty (Some ("functions." ++ n))) with ("functions." ++ n).
  now apply replace_leading.
Qed.

End OneShotExtras.

(** ** The further properties on the reference engine *)

Section ExtraExamples.
Import Toy ToyCases.


Lemma decoder_failure_keeps_stream_open_witness :
  state init <> END_STREAM /\
  str_in end_tool_chunk early_marker = true /\
  encode (effective_chunk early_marker) = Returned [TCall] /\
  run_decoder (parser init) [TCall]
  = (start, [], Some "unexpected token in header") /\
  snd (parse_streaming early_marker init)
  = Raised (HarmonyError "unexpected token in header") /\
  state (fst (parse_streaming early_marker init)) <> END_STREAM.
Proof.
  assert (N : state (engine := engine) init <> END_STREAM)
    by (vm_compute; discriminate).
  assert (E : encode (effective_chunk early_marker) = Returned [TCall])
    by (vm_compute; reflexivity).
  assert (R : run_decoder (parser init) [TCall]
              = (start, [], Some "unexpected token in header"))
    by (vm_compute; reflexivity).
  split; [exact N|]. split; [vm_compute; reflexivity|].
  split; [exact E|]. split; [exact R|].
  destruct (proj1 (decoder_failure_keeps_stream_open init early_marker N)
              [TCall] start [] "unexpected token in header" E R)
    as (H1 & H2 & _).
  split; [exact H1 | exact H2].
Defined.

Lemma streaming_result_shape_witness :
  snd (parse_streaming plain_chunk init)
  = Returned (Some {| content := Some "ok"; tool_calls := None;
                      reasoning_content := Some "hm" |}, false) /\
  ((Some {| content := Some "ok"; tool_calls := None;
            reasoning_content := Some "hm" |} = None /\
    false = true /\ state (engine := engine) init = END_STREAM) \/
   (exists r,
       Some {| content := Some "ok"; tool_calls := None;
               reasoning_content := Some "hm" |} = Some r /\
       content r <> Some "" /\ reasoning_content r <> Some "" /\
       ((false = false /\ tool_calls r = None) \/
        (false = true /\ exists tc, tool_calls r = Some [tc])))).
Proof.
  assert (H : snd (parse_streaming plain_chunk init)
              = Returned (Some {| content := Some "ok"; tool_calls := None;
                                  reasoning_content := Some "hm" |}, false))
    by (vm_compute; reflexivity).
  split; [exact H|].
  exact (streaming_result_shape init plain_chunk _ _ H).
Defined.

Lemma tool_call_onset_witness :
  state init = NORMAL /\
  str_in end_tool_chunk onset_chunk = false /\
  encode onset_chunk = Returned (tokenize 0 onset_chunk) /\
  map delta (visible (snd (fst (decoded init onset_chunk))))
  = ["h"; "m"; "{"; "}"] /\
  map current_channel (visible (snd (fst (decoded init onset_chunk))))
  = [Some "analysis"; Some "analysis"; Some "analysis"; Some "analysis"] /\
  fst (parse_streaming onset_chunk init)
  = {| parser := fst (fst (decoded init onset_chunk));
       state := FOUND_ARGUMENTS;
       arguments_buffer := ["{"; "}"];
       function_name_buffer := "f" |} /\
  snd (parse_streaming onset_chunk init)
  = Returned (Some {| content := None; tool_calls := None;
                      reasoning_content := Some "hm" |}, false).
Proof.
  assert (S : state (engine := engine) init = NORMAL) by reflexivity.
  assert (M0 : str_in end_tool_chunk onset_chunk = false)
    by (vm_compute; reflexivity).
  assert (E : encode onset_chunk = Returned (tokenize 0 onset_chunk))
    by reflexivity.
  assert (R : run_decoder (parser init) (tokenize 0 onset_chunk)
              = (fst (fst (decoded init onset_chunk)),
                 snd (fst (decoded init onset_chunk)), None))
    by (vm_compute; reflexivity).
  assert (V : visible (snd (fst (decoded init onset_chunk)))
              = (firstn 2 (visible (snd (fst (decoded init onset_chunk))))
                 ++ nth 2 (visible (snd (fst (decoded init onset_chunk))))
                      (report start None)
                 :: skipn 3 (visible (snd (fst (decoded init onset_chunk)))))%list)
    by (vm_compute; reflexivity).
  assert (P : existsb tool_delta
                (firstn 2 (visible (snd (fst (decoded init onset_chunk)))))
              = false) by (vm_compute; reflexivity).
  assert (T : tool_delta
                (nth 2 (visible (snd (fst (decoded init onset_chunk))))
                   (report start None)) = true) by (vm_compute; reflexivity).
  split; [exact S|]. split; [exact M0|]. split; [exact E|].
  split; [vm_compute; reflexivity|]. split; [vm_compute; reflexivity|].
  rewrite (tool_call_onset init onset_chunk _ _ _ _ _ _ S M0 E R V P T).
  split; vm_compute; reflexivity.
Defined.

Lemma chunk_split_witness :
  parse_streaming first_half init
  = (fst (parse_streaming first_half init),
     Returned (Some {| content := Some "o"; tool_calls := None;
                       reasoning_content := Some "hm" |}, false)) /\
  snd (parse_streaming second_half (fst (parse_streaming first_half init)))
  = Returned (Some {| content := Some "k";
                      tool_calls := Some [{| name := ""; arguments := "" |}];
                      reasoning_content := None |}, true) /\
  snd (parse_streaming (first_half ++ second_half) init)
  = Returned (Some {| content := Some "ok";
                      tool_calls := Some [{| name := ""; arguments := "" |}];
                      reasoning_content := Some "hm" |}, true) /\
  fst (parse_streaming (first_half ++ second_half) init)
  = fst (parse_streaming second_half (fst (parse_streaming first_half init))).
Proof.
  assert (Ha : str_in end_tool_chunk first_half = false)
    by (vm_compute; reflexivity).
  assert (Hab : str_in end_tool_chunk (first_half ++ second_half)
                = str_in end_tool_chunk second_half)
    by (vm_compute; reflexivity).
  assert (He : effective_chunk (first_half ++ second_half)
               = first_half ++ effective_chunk second_half)
    by (vm_compute; reflexivity).
  assert (Ea : encode first_half = Returned (tokenize 0 first_half))
    by reflexivity.
  assert (Eb : encode (effective_chunk second_half)
               = Returned (tokenize 0 (effective_chunk second_half)))
    by reflexivity.
  assert (Eab : encode (first_half ++ effective_chunk second_half)
                = Returned (tokenize 0 first_half
                            ++ tokenize 0 (effective_chunk second_half))%list)
    by (vm_compute; reflexivity).
  assert (Pa : parse_streaming first_half init
               = (fst (parse_streaming first_half init),
                  Returned (Some {| content := Some "o"; tool_calls := None;
                                    reasoning_content := Some "hm" |}, false)))
    by (vm_compute; reflexivity).
  assert (Pb : parse_streaming second_half
                 (fst (parse_streaming first_half init))
               = (fst (parse_streaming second_half
                         (fst (parse_streaming first_half init))),
                  Returned (Some {| content := Some "k";
                                    tool_calls :=
                                      Some [{| name := ""; arguments := "" |}];
                                    reasoning_content := None |}, true)))
    by (vm_compute; reflexivity).
  split; [exact Pa|]. split; [now rewrite Pb|].
  rewrite (chunk_split init _ first_half second_half _ _ _
             Ha Hab He Ea Eb Eab Pa), Pb.
  split; reflexivity.
Defined.

Lemma parse_last_message_wins_witness :
  encode (effective_chunk busy_text2) = Returned (tokenize 0 busy_text2) /\
  texts_on ChannelType.ANALYSIS
    [ {| msg_channel := Some "analysis"; msg_recipient := None;
         msg_content := [{| text := "a1" |}] |};
      {| msg_channel := Some "analysis"; msg_recipient := None;
         msg_content := [{| text := "a2" |}] |};
      {| msg_channel := Some "final"; msg_recipient := None;
         msg_content := [{| text := "f1" |}] |};
      {| msg_channel := Some "final"; msg_recipient := None;
         msg_content := [{| text := "f2" |}] |} ] = ["a1"; "a2"] /\
  snd (parse busy_text2 init)
  = Returned {| content := Some "f2"; tool_calls := Some [];
                reasoning_content := Some "a2" |} /\
  reasoning_content
    {| content := Some "f2"; tool_calls := Some [];
       reasoning_content := Some "a2" |}
  = last (map Some ["a1"; "a2"]) None.
Proof.
  assert (E : encode (effective_chunk busy_text2)
              = Returned (tokenize 0 busy_text2)) by (vm_compute; reflexivity).
  assert (P : parse_messages_from_completion_tokens (tokenize 0 busy_text2)
              = Returned
                  [ {| msg_channel := Some "analysis"; msg_recipient := None;
                       msg_content := [{| text := "a1" |}] |};
                    {| msg_channel := Some "analysis"; msg_recipient := None;
                       msg_content := [{| text := "a2" |}] |};
                    {| msg_channel := Some "final"; msg_recipient := None;
                       msg_content := [{| text := "f1" |}] |};
                    {| msg_channel := Some "final"; msg_recipient := None;
                       msg_content := [{| text := "f2" |}] |} ])
    by (vm_compute; reflexivity).
  assert (H : snd (parse busy_text2 init)
              = Returned {| content := Some "f2"; tool_calls := Some [];
                            reasoning_content := Some "a2" |})
    by (vm_compute; reflexivity).
  split; [exact E|]. split; [vm_compute; reflexivity|]. split; [exact H|].
  destruct (parse_last_message_wins busy_text2 init _ _ _ E P H) as [H1 _].
  rewrite H1. vm_compute. reflexivity.
Defined.

Lemma parse_needs_content_blocks_witness :
  parse (engine := hollow_engine) "anything" init = (init, Raised IndexError) /\
  exists r, parse (engine := engine) busy_text2 init = (init, Returned r).
Proof.
  split.
  - exact (@parse_needs_content_blocks hollow_engine "anything" init
             (tokenize 0 "anything") [hollow_message] eq_refl eq_refl).
  - assert (E : encode (effective_chunk busy_text2)
                = Returned (tokenize 0 busy_text2))
      by (vm_compute; reflexivity).
    pose proof (@parse_needs_content_blocks engine busy_text2 init
                  (tokenize 0 busy_text2)
                  (match messages start (tokenize 0 busy_text2) with
                   | Returned l => l
                   | Raised _ => []
                   end) E) as H.
    assert (P : parse_messages_from_completion_tokens (tokenize 0 busy_text2)
                = Returned (match messages start (tokenize 0 busy_text2) with
                            | Returned l => l
                            | Raised _ => []
                            end)) by (vm_compute; reflexivity).
    specialize (H P).
    assert (X : existsb lacks_text
                  (match messages start (tokenize 0 busy_text2) with
                   | Returned l => l
                   | Raised _ => []
                   end) = false) by (vm_compute; reflexivity).
    rewrite X in H. exact H.
Defined.

Lemma parse_names_call_after_recipient_witness :
  snd (parse busy_text init)
  = Returned {| content := Some "f1";
                tool_calls := Some [{| name := "run"; arguments := "{}" |}];
                reasoning_content := Some "a1" |} /\
  exists l tc c rest,
    Some [{| name := "run"; arguments := "{}" |}] = Some l /\ In tc l /\
    name tc = "run" /\
    [{| text := "{}" |}] = c :: rest /\ arguments tc = text c.
Proof.
  assert (E : encode (effective_chunk busy_text)
              = Returned (tokenize 0 busy_text)) by (vm_compute; reflexivity).
  assert (P : parse_messages_from_completion_tokens (tokenize 0 busy_text)
              = Returned
                  [ {| msg_channel := Some "analysis"; msg_recipient := None;
                       msg_content := [{| text := "a1" |}] |};
                    {| msg_channel := Some "final"; msg_recipient := None;
                       msg_content := [{| text := "f1" |}] |};
                    {| msg_channel := Some "analysis";
                       msg_recipient := Some "functions.run";
                       msg_content := [{| text := "{}" |}] |} ])
    by (vm_compute; reflexivity).
  assert (H : snd (parse busy_text init)
              = Returned {| content := Some "f1";
                            tool_calls :=
                              Some [{| name := "run"; arguments := "{}" |}];
                            reasoning_content := Some "a1" |})
    by (vm_compute; reflexivity).
  split; [exact H|].
  refine (parse_names_call_after_recipient busy_text init _ _ _
            {| msg_channel := Some "analysis";
               msg_recipient := Some "functions.run";
               msg_content := [{| text := "{}" |}] |} "run" E P H _ _ _).
  - right. right. left. reflexivity.
  - reflexivity.
  - vm_compute. reflexivity.
Defined.

End ExtraExamples.

(** ** Arguments spread over many chunks *)

Section Accumulation.
Context {engine : HarmonyEngine}.

(** X10.  Arguments accumulate over any number of chunks.  Starting in
    [FOUND_ARGUMENTS], a series of [parse_streaming] calls with chunks that
    hold no end marker and that the engine accepts returns an empty
    non-final result each time and leaves in the argument buffer, after
    what was there, every non-empty delta of every chunk in arrival order;
    state and function name are unchanged. *)
Theorem arguments_accumulate_over_chunks (chunks : list string) :
  forall (self : HarmonyParser) (d : decoder) (ds : list string),
    state self = FOUND_ARGUMENTS ->
    forallb (fun c => negb (str_in end_tool_chunk c)) chunks = true ->
    stream_deltas (parser self) chunks = Some (d, ds) ->
    run_session (map Streaming chunks) self
    = ({| parser := d; state := FOUND_ARGUMENTS;
          arguments_buffer := (arguments_buffer self ++ ds)%list;
          function_name_buffer := function_name_buffer self |},
       map (fun _ => Returned (Some {| content := None; tool_calls := None;
                                       reasoning_content := None |}, false))
         chunks).
Proof.
  induction chunks as [|c chunks IH]; intros self d ds Hs Hm Hd.
  - cbn in Hd. injection Hd as <- <-. cbn. rewrite app_nil_r.
    destruct self; simpl in *; now subst.
  - cbn [forallb] in Hm. apply andb_true_iff in Hm. destruct Hm as [Hc Hm].
    apply negb_true_iff in Hc.
    cbn [stream_deltas] in Hd.
    destruct (encode c) as [toks|e] eqn:E; [|discriminate].
    destruct (run_decoder (parser self) toks) as [[d1 trace] [e|]] eqn:R;
      [discriminate|].
    destruct (stream_deltas d1 chunks) as [[d2 ds2]|] eqn:Hrest;
      [|discriminate].
    injection Hd as <- <-.
    cbn [map run_session run_call].
    assert (Hne : state self <> END_STREAM) by (rewrite Hs; discriminate).
    rewrite (parse_streaming_unfold _ _ Hne). unfold effective_chunk.
    rewrite Hc.
    rewrite (process_chunk_tokens _ _ _ E),
      (process_tokens_capturing toks no_locals self Hs), R.
    cbv beta iota.
    erewrite IH; [|reflexivity | exact Hm | exact Hrest].
    cbn [arguments_buffer function_name_buffer]. now rewrite <- app_assoc.
Qed.

End Accumulation.

Section AccumulationExample.
Import Toy ToyCases.

Lemma arguments_accumulate_over_chunks_witness :
  state capturing = FOUND_ARGUMENTS /\
  arguments_buffer capturing = ["{"; "c"; "i"; "t"; "y"; ":"] /\
  forallb (fun c => negb (str_in end_tool_chunk c)) argument_pieces = true /\
  arguments_buffer (fst (run_session (map Streaming argument_pieces) capturing))
  = ["{"; "c"; "i"; "t"; "y"; ":"; "N"; "Y"; "C"; "}"] /\
  function_name_buffer
    (fst (run_session (map Streaming argument_pieces) capturing))
  = "get_weather".
Proof.
  assert (S : state capturing = FOUND_ARGUMENTS) by (vm_compute; reflexivity).
  assert (M0 : forallb (fun c => negb (str_in end_tool_chunk c))
                 argument_pieces = true) by (vm_compute; reflexivity).
  assert (D : stream_deltas (parser capturing) argument_pieces
              = Some (parser mid_call, ["N"; "Y"; "C"; "}"]))
    by (vm_compute; reflexivity).
  split; [exact S|]. split; [vm_compute; reflexivity|]. split; [exact M0|].
  rewrite (arguments_accumulate_over_chunks argument_pieces capturing
             _ _ S M0 D).
  split; vm_compute; reflexivity.
Defined.

End AccumulationExample.
